(** * langconnect: the collection and document access layer

    A shallow embedding of [langconnect/database/collections.py] and
    [langconnect/database/documents.py].  The two modules talk to a
    PostgreSQL database through SQL statements; the statements are embedded
    as list programs over the two tables they name, the Python around them
    as programs of a state-and-exception monad over the backend. *)

From stdpp Require Import gmap strings list fin_maps sorting pretty.

Local Open Scope string_scope.
Local Open Scope Z_scope.

(** ** Metadata values

    Metadata payloads are string-keyed dictionaries of JSON-serialisable
    Python values.  The code observes a value in three ways only: its
    truthiness ([a or b], [x if v else y]), its [str()] and, on the SQL
    side, the text produced by the [->>] operator.  Scalars are modelled
    concretely; every other object (float, list, nested dict, ...) is
    carried as exactly these three observations. *)

Inductive value : Type :=
  | VNone
  | VBool (b : bool)
  | VInt (z : Z)
  | VStr (s : string)
  | VOther (truthy : bool) (py_text json_text : string).

#[global] Instance value_eq_dec : EqDecision value.
Proof. solve_decision. Defined.

Abbreviation Metadata := (gmap string value).

(** Python's [bool(v)]. *)
Definition py_bool (v : value) : bool :=
  match v with
  | VNone => false
  | VBool b => b
  | VInt z => negb (z =? 0)
  | VStr s => negb (bool_decide (s = ""))
  | VOther t _ _ => t
  end.

(** Python's [str(v)]. *)
Definition py_str (v : value) : string :=
  match v with
  | VNone => "None"
  | VBool true => "True"
  | VBool false => "False"
  | VInt z => pretty z
  | VStr s => s
  | VOther _ t _ => t
  end.

(** The text PostgreSQL's [->>] gives for a JSON value; JSON null gives
    SQL NULL. *)
Definition json_text (v : value) : option string :=
  match v with
  | VNone => None
  | VBool true => Some "true"
  | VBool false => Some "false"
  | VInt z => Some (pretty z)
  | VStr s => Some s
  | VOther _ _ t => Some t
  end.

(** [cmetadata ->> key]: NULL for a NULL column, a missing key or a JSON
    null.  A metadata column is [None] for SQL NULL (or JSON null) and
    [Some m] for the JSON object [m]; encoding an object as JSON text and
    decoding it again is the identity on this representation. *)
Definition arrow_text (cmetadata : option Metadata) (key : string) : option string :=
  m ← cmetadata; v ← m !! key; json_text v.

Notation "c '->>' k" := (arrow_text c k) (at level 40, no associativity).

(** ** The two tables

    Identifiers are carried as their canonical text, which is what [str()]
    of a UUID gives and what orders like the UUID itself.  Rows carry the
    columns the statements of the two modules name. *)

Record collection_row : Type := {
  c_uuid : string;
  c_name : string;
  c_cmetadata : option Metadata;
}.

Record embedding_row : Type := {
  e_id : string;
  e_uuid : string;
  e_collection_id : string;
  e_document : string;
  e_cmetadata : option Metadata;
}.

Record database : Type := {
  langchain_pg_collection : list collection_row;
  langchain_pg_embedding : list embedding_row;
}.

#[global] Instance collection_row_eq_dec : EqDecision collection_row.
Proof. solve_decision. Defined.

#[global] Instance embedding_row_eq_dec : EqDecision embedding_row.
Proof. solve_decision. Defined.

(** ** Exceptions and the backend *)

Inductive exn : Type :=
  | HTTPException (status_code : Z) (detail : string)
  | AssertionError (msg : string)
  | UndefinedTableError
  | UniqueViolationError
  | PostgresError
  | DataError
  | ConnectionRefusedError.

Inductive result (A : Type) : Type :=
  | Ok (a : A)
  | Raise (e : exn).

Arguments Ok {A} a.
Arguments Raise {A} e.

(** The backend an operation runs against: reachable, holding the tables, or
    failing every statement with [e]. *)
Inductive backend : Type :=
  | Up (d : database)
  | Down (e : exn).

(** An operation: a backend transformer that returns or raises. *)
Definition M (A : Type) : Type := backend → result A * backend.

#[global] Instance M_ret : MRet M := λ A a b, (Ok a, b).

#[global] Instance M_bind : MBind M := λ A B k m b,
  match m b with
  | (Ok a, b') => k a b'
  | (Raise e, b') => (Raise e, b')
  end.

Definition raise {A} (e : exn) : M A := λ b, (Raise e, b).

(** [try: body except Exception as e: handler e]; every exception of the
    model derives from [Exception]. *)
Definition try_except {A} (body : M A) (handler : exn → M A) : M A := λ b,
  match body b with
  | (Ok a, b') => (Ok a, b')
  | (Raise e, b') => handler e b'
  end.

(** Modelled from the spec: [langconnect.database.connection] is not among
    the sources.  [get_db_connection] yields a scoped connection to the
    storage backend on which one statement is run; acquiring it or running
    the statement raises when the backend is unavailable.  A statement is a
    function of the tables that returns its rows and the new tables, or
    raises a server error. *)
Definition conn_execute {A} (stmt : database → result (A * database)) : M A := λ b,
  match b with
  | Down e => (Raise e, b)
  | Up d =>
      match stmt d with
      | Ok (a, d') => (Ok a, Up d')
      | Raise e => (Raise e, b)
      end
  end.

(** A statement that only reads. *)
Definition conn_fetch {A} (query : database → result A) : M A :=
  conn_execute (λ d, match query d with Ok a => Ok (a, d) | Raise e => Raise e end).

(** SQL [COALESCE(x, y)] for a nullable [x]. *)
Definition COALESCE {A} (x : option A) (y : A) : A :=
  match x with
  | Some a => a
  | None => y
  end.

(** The ownership predicate [cmetadata->>'owner_id' = user_id]. *)
Definition owned_by (user_id : string) (r : collection_row) : Prop :=
  c_cmetadata r ->> "owner_id" = Some user_id.

#[global] Instance owned_by_dec user_id r : Decision (owned_by user_id r).
Proof. unfold owned_by. apply _. Defined.

(** Modelled from the spec: [get_vectorstore] belongs to
    [langconnect.database.connection], which is not among the sources.
    Called by [Collections.create] for its effect: it persists one row for
    the named collection, under an identifier generated by the storage,
    holding the metadata it is given. *)
Definition get_vectorstore (collection_name : string) (collection_metadata : Metadata)
    : M unit :=
  conn_execute (λ d,
    let rows := langchain_pg_collection d in
    let row := {| c_uuid := fresh (c_uuid <$> rows);
                  c_name := collection_name;
                  c_cmetadata := Some collection_metadata |} in
    Ok ((), {| langchain_pg_collection := rows ++ [row];
               langchain_pg_embedding := langchain_pg_embedding d |})).

(** Modelled from the spec: the table declarations are not among the
    sources.  Chunks reference their collection by a foreign key that
    cascades: deleting collection rows deletes the chunks that reference
    them. *)
Definition on_delete_cascade (gone : list collection_row) (chunks : list embedding_row)
    : list embedding_row :=
  filter (λ e, e_collection_id e ∉ (c_uuid <$> gone)) chunks.

(** ** collections.py *)

Module collections.

Record CollectionDetails : Type := {
  uuid : string;
  name : string;
  metadata : Metadata;
}.

(** [raw] is [None] for SQL NULL and for the text [null]; otherwise it
    decodes to a dictionary. *)
Definition _parse_metadata (raw : option Metadata) : Metadata :=
  match raw with
  | None => ∅
  | Some m => m
  end.

(** The dictionary built from a fetched record. *)
Definition details (rec : collection_row) : CollectionDetails :=
  {| uuid := c_uuid rec;
     name := c_name rec;
     metadata := _parse_metadata (c_cmetadata rec) |}.

(** [WHERE uuid = $1 AND cmetadata->>'owner_id' = $2] *)
Definition where_uuid_owner (collection_id user_id : string) (r : collection_row) : Prop :=
  c_uuid r = collection_id ∧ owned_by user_id r.

(** [WHERE name = $1 AND cmetadata->>'owner_id' = $2] *)
Definition where_name_owner (collection_name user_id : string) (r : collection_row) : Prop :=
  c_name r = collection_name ∧ owned_by user_id r.

#[global] Instance where_uuid_owner_dec i u r : Decision (where_uuid_owner i u r).
Proof. unfold where_uuid_owner. apply _. Defined.

#[global] Instance where_name_owner_dec n u r : Decision (where_name_owner n u r).
Proof. unfold where_name_owner. apply _. Defined.

(** [ORDER BY name] *)
Definition order_by_name (r1 r2 : collection_row) : Prop :=
  String.le (c_name r1) (c_name r2).

#[global] Instance order_by_name_dec r1 r2 : Decision (order_by_name r1 r2).
Proof. unfold order_by_name. apply _. Defined.

Definition get (user_id collection_id : string) : M (option CollectionDetails) :=
  rec ← conn_fetch (λ d,
    Ok (head (filter (where_uuid_owner collection_id user_id)
                     (langchain_pg_collection d))));
  match rec with
  | None => mret None
  | Some r => mret (Some (details r))
  end.

Definition _get_by_name (user_id collection_name : string) : M (option CollectionDetails) :=
  rec ← conn_fetch (λ d,
    Ok (head (filter (where_name_owner collection_name user_id)
                     (langchain_pg_collection d))));
  match rec with
  | None => mret None
  | Some r => mret (Some (details r))
  end.

Definition create (user_id collection_name : string) (metadata : option Metadata)
    : M CollectionDetails :=
  existing ← _get_by_name user_id collection_name;
  match existing with
  | Some _ =>
      raise (HTTPException 409
               ("Collection '" +:+ collection_name +:+ "' already exists."))
  | None =>
      let metadata :=
        match metadata with
        | Some m => if decide (m = ∅) then ∅ else m
        | None => ∅
        end in
      let metadata := <["owner_id" := VStr user_id]> metadata in
      _ ← get_vectorstore collection_name metadata;
      created ← _get_by_name user_id collection_name;
      match created with
      | Some c => mret c
      | None => raise (AssertionError "Failed to create collection")
      end
  end.

(** The [SET] clause of [update]: [name = COALESCE($1, name)],
    [cmetadata = COALESCE($2::json, cmetadata)]. *)
Definition set_clause (new_name : option string) (metadata_json : option Metadata)
    (r : collection_row) : collection_row :=
  {| c_uuid := c_uuid r;
     c_name := COALESCE new_name (c_name r);
     c_cmetadata := COALESCE (Some <$> metadata_json) (c_cmetadata r) |}.

(** Modelled from the spec: the table declarations are not among the
    sources.  The name of a collection is unique among the collections of
    its owner: the statement of [update] violates this when it matches a
    row and gives it the name of another collection of the caller. *)
Definition unique_violation (new_name : option string) (collection_id user_id : string)
    (rows : list collection_row) : Prop :=
  match new_name with
  | Some n =>
      Exists (where_uuid_owner collection_id user_id) rows
      ∧ Exists (λ x, owned_by user_id x ∧ c_name x = n ∧ c_uuid x ≠ collection_id) rows
  | None => False
  end.

#[global] Instance unique_violation_dec n i u rows : Decision (unique_violation n i u rows).
Proof. unfold unique_violation. destruct n; apply _. Defined.

(** The [UPDATE ... RETURNING] statement of [update]; the backend refuses
    it, and changes nothing, when it violates the uniqueness of names. *)
Definition update_statement (new_name : option string) (metadata_json : option Metadata)
    (collection_id user_id : string) (d : database)
    : result (option collection_row * database) :=
  let rows := langchain_pg_collection d in
  if decide (unique_violation new_name collection_id user_id rows) then
    Raise UniqueViolationError
  else
    Ok (head (set_clause new_name metadata_json
                <$> filter (where_uuid_owner collection_id user_id) rows),
        {| langchain_pg_collection :=
             (λ r, if decide (where_uuid_owner collection_id user_id r)
                   then set_clause new_name metadata_json r else r) <$> rows;
           langchain_pg_embedding := langchain_pg_embedding d |}).

Definition update (user_id collection_id : string) (new_name : option string)
    (metadata : option Metadata) : M CollectionDetails :=
  let metadata := (λ m, <["owner_id" := VStr user_id]> m) <$> metadata in
  let metadata_json := metadata in
  rec ← conn_execute (update_statement new_name metadata_json collection_id user_id);
  match rec with
  | None =>
      raise (HTTPException 404
               ("Collection '" +:+ collection_id +:+ "' not found or not owned by you."))
  | Some r => mret (details r)
  end.

(** The [DELETE] statement of [delete]; its command tag [DELETE n] is
    carried as the count [n] that [int(result.split()[-1])] reads back. *)
Definition delete_statement (collection_id user_id : string) (d : database)
    : result (Z * database) :=
  let rows := langchain_pg_collection d in
  let gone := filter (where_uuid_owner collection_id user_id) rows in
  Ok (Z.of_nat (length gone),
      {| langchain_pg_collection :=
           filter (λ r, ¬ where_uuid_owner collection_id user_id r) rows;
         langchain_pg_embedding := on_delete_cascade gone (langchain_pg_embedding d) |}).

Definition delete (user_id collection_id : string) : M Z :=
  count ← conn_execute (delete_statement collection_id user_id);
  if decide (count = 0) then
    raise (HTTPException 404
             ("Collection '" +:+ collection_id +:+ "' not found or not owned by you."))
  else mret count.

Definition list (user_id : string) : M (Datatypes.list CollectionDetails) :=
  records ← conn_fetch (λ d,
    Ok (merge_sort order_by_name
          (filter (owned_by user_id) (langchain_pg_collection d))));
  mret (details <$> records).

End collections.

(** ** documents.py *)

Module documents.

(** [langchain_core.documents.Document] *)
Record Document : Type := {
  page_content : string;
  doc_metadata : Metadata;
}.

(** The dictionaries that [list_documents_in_vectorstore] returns. *)
Record ListedDocument : Type := {
  id : string;
  content : string;
  metadata : Metadata;
  collection_id : string;
}.

(** The dictionary that [get_document_from_vectorstore] returns; the
    metadata is the column as fetched. *)
Record FetchedDocument : Type := {
  fetched_id : string;
  fetched_content : string;
  fetched_metadata : option Metadata;
}.

(** [cmetadata->>'file_id'] *)
Definition file_id (e : embedding_row) : option string :=
  e_cmetadata e ->> "file_id".

(** [SELECT uuid FROM langchain_pg_collection WHERE name = $1], first row. *)
Definition select_collection_by_name (collection_name : string) (d : database)
    : result (option collection_row) :=
  Ok (head (filter (λ r, c_name r = collection_name) (langchain_pg_collection d))).

(** Rows of the common table expression: [(id, file_id)]. *)
Abbreviation ufc_row := (string * string)%type.

(** [ORDER BY cmetadata->>'file_id', id] *)
Definition order_by_file_id_id (x y : ufc_row) : Prop :=
  strict String.le x.2 y.2 ∨ (x.2 = y.2 ∧ String.le x.1 y.1).

#[global] Instance order_by_file_id_id_dec x y : Decision (order_by_file_id_id x y).
Proof. unfold order_by_file_id_id, strict. apply _. Defined.

(** [ORDER BY ufc.file_id] on the joined rows. *)
Definition order_by_ufc_file_id (x y : embedding_row * ufc_row) : Prop :=
  String.le x.2.2 y.2.2.

#[global] Instance order_by_ufc_file_id_dec x y : Decision (order_by_ufc_file_id x y).
Proof. unfold order_by_ufc_file_id. apply _. Defined.

(** [DISTINCT ON (file_id)] over ordered rows: the first row of every run of
    rows with one file id; [prev] is the file id of the row before. *)
Fixpoint distinct_on_file_id (prev : option string) (rows : list ufc_row) : list ufc_row :=
  match rows with
  | [] => []
  | x :: rows' =>
      if decide (prev = Some x.2) then distinct_on_file_id prev rows'
      else x :: distinct_on_file_id (Some x.2) rows'
  end.

(** [SELECT id, cmetadata->>'file_id' FROM langchain_pg_embedding
    WHERE collection_id = $1 AND cmetadata->>'file_id' IS NOT NULL] *)
Definition file_chunks (collection_uuid : string) (d : database) : list ufc_row :=
  omap (λ e, if decide (e_collection_id e = collection_uuid)
             then (λ f, (e_id e, f)) <$> file_id e
             else None)
       (langchain_pg_embedding d).

(** The common table expression [UniqueFileChunks]. *)
Definition UniqueFileChunks (collection_uuid : string) (d : database) : list ufc_row :=
  distinct_on_file_id None
    (merge_sort order_by_file_id_id (file_chunks collection_uuid d)).

(** [emb JOIN UniqueFileChunks ufc ON emb.id = ufc.id] *)
Definition join_on_id (embs : list embedding_row) (ufcs : list ufc_row)
    : list (embedding_row * ufc_row) :=
  emb ← embs; ufc ← ufcs; if decide (e_id emb = ufc.1) then [(emb, ufc)] else [].

(** The listing query before [LIMIT] and [OFFSET]. *)
Definition unique_file_chunks_query (collection_uuid : string) (d : database)
    : list embedding_row :=
  fst <$> merge_sort order_by_ufc_file_id
            (join_on_id (langchain_pg_embedding d) (UniqueFileChunks collection_uuid d)).

(** The listing query.  [$2] and [$3] are 64-bit integers: the driver
    refuses a Python int out of that range and the server a negative row
    count. *)
Definition list_query (collection_uuid : string) (limit offset : Z) (d : database)
    : result (list embedding_row) :=
  if decide (- 2 ^ 63 ≤ limit < 2 ^ 63 ∧ - 2 ^ 63 ≤ offset < 2 ^ 63) then
    if decide (0 ≤ limit ∧ 0 ≤ offset) then
      Ok (take (Z.to_nat limit)
            (drop (Z.to_nat offset) (unique_file_chunks_query collection_uuid d)))
    else Raise PostgresError
  else Raise DataError.

(** The dictionary built from a fetched record; the stored metadata is
    valid JSON, so decoding it does not fail. *)
Definition listed (collection_uuid : string) (record : embedding_row) : ListedDocument :=
  let metadata_dict :=
    match e_cmetadata record with
    | Some m => m
    | None => ∅
    end in
  {| id := e_id record;
     content := e_document record;
     metadata := metadata_dict;
     collection_id := collection_uuid |}.

(** One turn of the loop over [records]. *)
Definition append_listed (collection_uuid : string) (documents : list ListedDocument)
    (record : embedding_row) : list ListedDocument :=
  documents ++ [listed collection_uuid record].

Definition list_documents_in_vectorstore (collection_name : string) (limit offset : Z)
    : M (list ListedDocument) :=
  let documents := [] in
  try_except
    (collection_record ← conn_fetch (select_collection_by_name collection_name);
     match collection_record with
     | None => mret []
     | Some r =>
         let collection_uuid := c_uuid r in
         records ← conn_fetch (list_query collection_uuid limit offset);
         mret (foldl (append_listed collection_uuid) documents records)
     end)
    (λ e,
      match e with
      | UndefinedTableError => mret []
      | _ => mret []
      end).

(** [WHERE collection_id = $1 AND cmetadata->>'file_id' = ANY($2::text[])] *)
Definition where_collection_file_ids (collection_uuid : string) (file_ids_str : list string)
    (e : embedding_row) : Prop :=
  e_collection_id e = collection_uuid ∧
  match file_id e with
  | Some f => f ∈ file_ids_str
  | None => False
  end.

#[global] Instance where_collection_file_ids_dec c fs e :
  Decision (where_collection_file_ids c fs e).
Proof. unfold where_collection_file_ids. destruct (file_id e); apply _. Defined.

(** The [DELETE ... RETURNING id] statement; its command tag is carried as
    the count of deleted rows. *)
Definition delete_by_file_ids (collection_uuid : string) (file_ids_str : list string)
    (d : database) : result (Z * database) :=
  let chunks := langchain_pg_embedding d in
  Ok (Z.of_nat (length (filter (where_collection_file_ids collection_uuid file_ids_str) chunks)),
      {| langchain_pg_collection := langchain_pg_collection d;
         langchain_pg_embedding :=
           filter (λ e, ¬ where_collection_file_ids collection_uuid file_ids_str e) chunks |}).

Definition delete_documents_from_vectorstore (collection_name : string)
    (file_ids : list string) : M bool :=
  if decide (file_ids = []) then mret true
  else
    try_except
      (collection_record ← conn_fetch (select_collection_by_name collection_name);
       match collection_record with
       | None => mret false
       | Some r =>
           let collection_uuid := c_uuid r in
           let file_ids_str := (λ fid, py_str (VStr fid)) <$> file_ids in
           result ← conn_execute (delete_by_file_ids collection_uuid file_ids_str);
           let deleted_count := result in
           mret true
       end)
      (λ e,
        match e with
        | UndefinedTableError => mret false
        | _ => mret false
        end).

Section black_boxes.

(** [uuid.UUID(s)]: the identifier a string denotes, [None] when the
    constructor raises [ValueError]. *)
Variable UUID : string → option string.

(** The scores of the vector search. *)
Variable score : Type.

(** [get_vectorstore(collection_name, embeddings).similarity_search_with_score(query, k)] *)
Variable similarity_search_with_score : string → string → Z → M (list (Document * score)).

Definition get_document_from_vectorstore (document_id : string)
    : M (option FetchedDocument) :=
  match UUID document_id with
  | None => mret None
  | Some doc_uuid =>
      try_except
        (record ← conn_fetch (λ d,
           Ok (head (filter (λ e, e_uuid e = doc_uuid) (langchain_pg_embedding d))));
         match record with
         | Some r =>
             mret (Some {| fetched_id := e_uuid r;
                           fetched_content := e_document r;
                           fetched_metadata := e_cmetadata r |})
         | None => mret None
         end)
        (λ e, mret None)
  end.

(** The dictionaries that [search_documents_in_vectorstore] returns. *)
Record Hit : Type := {
  hit_id : option string;
  hit_page_content : string;
  hit_metadata : Metadata;
  hit_score : score;
}.

(** [a or b] on the results of [dict.get]: [a] when it is truthy, [b]
    otherwise. *)
Definition py_or (a b : option value) : option value :=
  match a with
  | Some v => if py_bool v then a else b
  | None => b
  end.

(** The dictionary built from one hit. *)
Definition formatted (hit : Document * score) : Hit :=
  let '(doc, sc) := hit in
  let doc_id := py_or (doc_metadata doc !! "uuid") (doc_metadata doc !! "id") in
  {| hit_id := match doc_id with
               | Some v => if py_bool v then Some (py_str v) else None
               | None => None
               end;
     hit_page_content := page_content doc;
     hit_metadata := doc_metadata doc;
     hit_score := sc |}.

(** One turn of the loop over the hits. *)
Definition append_hit (formatted_results : list Hit) (hit : Document * score) : list Hit :=
  formatted_results ++ [formatted hit].

Definition search_documents_in_vectorstore (collection_name query : string) (limit : Z)
    : M (list Hit) :=
  results_with_scores ← similarity_search_with_score collection_name query limit;
  mret (foldl append_hit [] results_with_scores).

End black_boxes.

(** A field of a fetched record: a [uuid.UUID] or any other value. *)
Inductive field : Type :=
  | FUUID (u : string)
  | FValue (v : value).

(** [str(value) if isinstance(value, uuid.UUID) else value] *)
Definition field_value (val : field) : value :=
  match val with
  | FUUID u => VStr u
  | FValue v => v
  end.

(** A record is [None] or its items in column order; the comprehension
    fills the dictionary item by item. *)
Definition record_to_dict (record : option (list (string * field))) : option Metadata :=
  match record with
  | None => None
  | Some items =>
      Some (foldl (λ (acc : Metadata) (item : string * field),
                     if decide (item.1 ≠ "embedding")
                     then <[item.1 := field_value item.2]> acc
                     else acc)
                  ∅ items)
  end.

(** The id the specification's words give a hit: the string of the [uuid]
    entry if present, otherwise of the [id] entry if present, otherwise
    none. *)
Definition spec_hit_id (m : Metadata) : option string :=
  match m !! "uuid" with
  | Some v => Some (py_str v)
  | None =>
      match m !! "id" with
      | Some v => Some (py_str v)
      | None => None
      end
  end.

(** An entry of a dictionary that is present and truthy. *)
Definition truthy_entry (m : Metadata) (key : string) : option value :=
  match m !! key with
  | Some v => if py_bool v then Some v else None
  | None => None
  end.

(** The id of a hit when falsy entries count as absent. *)
Definition truthy_hit_id (m : Metadata) : option string :=
  match truthy_entry m "uuid" with
  | Some v => Some (py_str v)
  | None => py_str <$> truthy_entry m "id"
  end.

End documents.

(** ** The caller's view

    What a caller may see of the collections table: the rows whose owner it
    is.  The chunks are kept as they are. *)
Definition own (user_id : string) (d : database) : database :=
  {| langchain_pg_collection := filter (owned_by user_id) (langchain_pg_collection d);
     langchain_pg_embedding := langchain_pg_embedding d |}.

(** The rows of the other owners. *)
Definition foreign (user_id : string) (b : backend) : list collection_row :=
  match b with
  | Up d => filter (λ r, ¬ owned_by user_id r) (langchain_pg_collection d)
  | Down _ => []
  end.

(** ** Documents

    A chunk of the collection that belongs to file [f]. *)
Definition file_chunk_of (d : database) (collection_uuid f : string) (e : embedding_row)
    : Prop :=
  e ∈ langchain_pg_embedding d
  ∧ e_collection_id e = collection_uuid
  ∧ documents.file_id e = Some f.

(** ** The outcomes of the registry

    The two HTTP errors the registry raises, and the tables its three
    writing statements leave. *)

(** The error of [update] and [delete] when no row matches. *)
Definition not_found (collection_id : string) : exn :=
  HTTPException 404 ("Collection '" +:+ collection_id +:+ "' not found or not owned by you.").

(** The error of [create] when the name is taken. *)
Definition conflict (collection_name : string) : exn :=
  HTTPException 409 ("Collection '" +:+ collection_name +:+ "' already exists.").

(** The table after [get_vectorstore] persisted [r]. *)
Definition insert_collection (r : collection_row) (d : database) : database :=
  {| langchain_pg_collection := langchain_pg_collection d ++ [r];
     langchain_pg_embedding := langchain_pg_embedding d |}.

(** The row [create] has persisted: the caller's metadata under its
    [owner_id]. *)
Definition created_row (user_id collection_name : string) (metadata : option Metadata)
    (d : database) : collection_row :=
  {| c_uuid := fresh (c_uuid <$> langchain_pg_collection d);
     c_name := collection_name;
     c_cmetadata := Some (<["owner_id" := VStr user_id]> (default ∅ metadata)) |}.

(** The tables after the statement of [update]. *)
Definition updated (user_id collection_id : string) (new_name : option string)
    (metadata : option Metadata) (d : database) : database :=
  {| langchain_pg_collection :=
       (λ r, if decide (collections.where_uuid_owner collection_id user_id r)
             then collections.set_clause new_name
                    ((λ m, <["owner_id" := VStr user_id]> m) <$> metadata) r
             else r) <$> langchain_pg_collection d;
     langchain_pg_embedding := langchain_pg_embedding d |}.

(** The tables after the statement of [delete]. *)
Definition deleted (user_id collection_id : string) (d : database) : database :=
  {| langchain_pg_collection :=
       filter (λ r, ¬ collections.where_uuid_owner collection_id user_id r)
         (langchain_pg_collection d);
     langchain_pg_embedding :=
       on_delete_cascade
         (filter (collections.where_uuid_owner collection_id user_id)
            (langchain_pg_collection d))
         (langchain_pg_embedding d) |}.

(** ** Keys

    The tables of a reachable backend have their keys: no two collections
    share a [uuid], no two chunks an [id]. *)
Definition keyed (b : backend) : Prop :=
  match b with
  | Up d => NoDup (c_uuid <$> langchain_pg_collection d)
            ∧ NoDup (e_id <$> langchain_pg_embedding d)
  | Down _ => True
  end.

(** The [file_id] a listed document shows in its metadata. *)
Definition listed_file_id (doc : documents.ListedDocument) : option string :=
  Some (documents.metadata doc) ->> "file_id".

(** The tables after the statement of [delete_documents_from_vectorstore]
    ran on the collection [collection_uuid]. *)
Definition files_deleted (collection_uuid : string) (file_ids : list string) (d : database)
    : database :=
  {| langchain_pg_collection := langchain_pg_collection d;
     langchain_pg_embedding :=
       filter (λ e, ¬ documents.where_collection_file_ids collection_uuid file_ids e)
         (langchain_pg_embedding d) |}.

(** A file id that is not among [file_ids]. *)
Definition other_file (file_ids : list string) (file : option string) : Prop :=
  match file with
  | Some f => f ∉ file_ids
  | None => True
  end.

#[global] Instance other_file_dec file_ids file : Decision (other_file file_ids file).
Proof. destruct file; apply _. Defined.

(** ** Names

    Another collection of the caller than [r] bears the new name. *)
Definition name_taken_by_another (user_id : string) (new_name : option string)
    (r : collection_row) (d : database) : Prop :=
  ∃ n x, new_name = Some n ∧ x ∈ langchain_pg_collection d
         ∧ owned_by user_id x ∧ c_name x = n ∧ x ≠ r.

(** ** Data of the examples *)

Definition no_tables : database :=
  {| langchain_pg_collection := []; langchain_pg_embedding := [] |}.

(** A collection named [docs] for each of two users. *)
Definition user1_docs : collection_row :=
  {| c_uuid := "c1"; c_name := "docs";
     c_cmetadata := Some {["owner_id" := VStr "user1"]} |}.

Definition user2_docs : collection_row :=
  {| c_uuid := "c2"; c_name := "docs";
     c_cmetadata := Some {["owner_id" := VStr "user2"]} |}.

(** A chunk of a file in a collection. *)
Definition chunk (chunk_id collection file : string) : embedding_row :=
  {| e_id := chunk_id; e_uuid := chunk_id; e_collection_id := collection;
     e_document := "text of " +:+ chunk_id;
     e_cmetadata := Some {["file_id" := VStr file]} |}.

(** A chunk that belongs to no file. *)
Definition loose_chunk (chunk_id collection : string) : embedding_row :=
  {| e_id := chunk_id; e_uuid := chunk_id; e_collection_id := collection;
     e_document := "text of " +:+ chunk_id;
     e_cmetadata := Some {["page" := VInt 1]} |}.

(** Only [user2] owns a collection; it holds three chunks of file [f1], two
    of file [f2] and one of no file. *)
Definition user2_only : database :=
  {| langchain_pg_collection := [user2_docs];
     langchain_pg_embedding :=
       [chunk "e5" "c2" "f2"; chunk "e3" "c2" "f1"; loose_chunk "e0" "c2";
        chunk "e4" "c2" "f2"; chunk "e1" "c2" "f1"; chunk "e2" "c2" "f1"] |}.

(** Both users own a collection named [docs]. *)
Definition two_owners : database :=
  {| langchain_pg_collection := [user1_docs; user2_docs];
     langchain_pg_embedding :=
       [chunk "e1" "c1" "f1"; chunk "e2" "c2" "f1"; chunk "e3" "c2" "f2"] |}.

(** The tables after [user1] created the collection [colA] with the
    metadata [{"a": 1}] in an empty database. *)
Definition colA : collection_row :=
  {| c_uuid := "0"; c_name := "colA";
     c_cmetadata := Some {["a" := VInt 1; "owner_id" := VStr "user1"]} |}.

Definition colA_created : database :=
  {| langchain_pg_collection := [colA]; langchain_pg_embedding := [] |}.

(** The tables after [user1] also created the collection [colB]. *)
Definition colB : collection_row :=
  {| c_uuid := "1"; c_name := "colB";
     c_cmetadata := Some {["b" := VInt 2; "owner_id" := VStr "user1"]} |}.

Definition colA_colB : database :=
  {| langchain_pg_collection := [colA; colB]; langchain_pg_embedding := [] |}.

(** A vector search that finds one hit whatever the query. *)
Definition one_hit (m : Metadata) : string → string → Z → M (list (documents.Document * Z)) :=
  λ _ _ _, mret [({| documents.page_content := "text"; documents.doc_metadata := m |}, 1)].

(** * Properties *)

(** A decidable fact of concrete data, by evaluation. *)
Ltac decided := apply (bool_decide_unpack _); vm_compute; exact I.

(** ** The monad on a reachable and on a failing backend *)

Lemma foldl_snoc_fmap {A B} (f : A → B) (l : list A) (acc : list B) :
  foldl (λ acc x, (acc ++ [f x])%list) acc l = (acc ++ (f <$> l))%list.
Proof.
  revert acc. induction l as [|x l IH]; intros acc; simpl.
  - by rewrite app_nil_r.
  - rewrite IH. by rewrite <- app_assoc.
Qed.

Lemma conn_fetch_up {A} (q : database → result A) d :
  conn_fetch q (Up d) =
  match q d with
  | Ok a => (Ok a, Up d)
  | Raise e => (Raise e, Up d)
  end.
Proof. unfold conn_fetch, conn_execute. by destruct (q d). Qed.

Lemma conn_execute_down {A} (stmt : database → result (A * database)) e :
  conn_execute stmt (Down e) = (Raise e, Down e).
Proof. done. Qed.

Lemma conn_fetch_down {A} (q : database → result A) e :
  conn_fetch q (Down e) = (Raise e, Down e).
Proof. done. Qed.

Lemma bind_run {A B} (m : M A) (k : A → M B) b :
  (m ≫= k) b =
  match m b with
  | (Ok a, b') => k a b'
  | (Raise e, b') => (Raise e, b')
  end.
Proof. done. Qed.

(** ** Failures of the backend in the chunk store *)

Section chunk_store_failures.

Variable UUID : string → option string.

Lemma list_documents_down collection_name limit offset e :
  documents.list_documents_in_vectorstore collection_name limit offset (Down e)
  = (Ok [], Down e).
Proof.
  unfold documents.list_documents_in_vectorstore, try_except.
  rewrite bind_run, conn_fetch_down. by destruct e.
Qed.

Lemma get_document_down document_id e :
  documents.get_document_from_vectorstore UUID document_id (Down e) = (Ok None, Down e).
Proof.
  unfold documents.get_document_from_vectorstore.
  destruct (UUID document_id); [|done].
  unfold try_except. by rewrite bind_run, conn_fetch_down.
Qed.

Lemma delete_documents_down collection_name fid file_ids e :
  documents.delete_documents_from_vectorstore collection_name (fid :: file_ids) (Down e)
  = (Ok false, Down e).
Proof.
  unfold documents.delete_documents_from_vectorstore, try_except.
  rewrite decide_False by done.
  rewrite bind_run, conn_fetch_down. by destruct e.
Qed.

(** C4, as the code has it: in every chunk-store operation a failure of the
    backend, whatever it is, is caught like the missing-relation condition
    and becomes the empty listing, the absent document or [False]; it does
    not reach the caller. *)
Theorem chunk_store_catches_backend_failures
    (collection_name document_id fid : string) (file_ids : list string)
    (limit offset : Z) (e : exn) :
  documents.list_documents_in_vectorstore collection_name limit offset (Down e)
    = (Ok [], Down e)
  ∧ documents.get_document_from_vectorstore UUID document_id (Down e)
    = (Ok None, Down e)
  ∧ documents.delete_documents_from_vectorstore collection_name (fid :: file_ids) (Down e)
    = (Ok false, Down e).
Proof.
  split; [apply list_documents_down|].
  split; [apply get_document_down|apply delete_documents_down].
Qed.

End chunk_store_failures.

(** C4, as stated, fails: a refused connection is not propagated by any of
    the three operations. *)
Lemma chunk_store_does_not_propagate :
  (documents.list_documents_in_vectorstore "docs" 10 0 (Down ConnectionRefusedError)).1
    = Ok []
  ∧ (documents.get_document_from_vectorstore Some "c0ffee" (Down ConnectionRefusedError)).1
    = Ok None
  ∧ (documents.delete_documents_from_vectorstore "docs" ["f1"] (Down ConnectionRefusedError)).1
    = Ok false
  ∧ Ok [] ≠ @Raise (list documents.ListedDocument) ConnectionRefusedError.
Proof. repeat split; done. Qed.

(** ** Selections on the tables *)

Lemma filter_none {A} (P : A → Prop) `{∀ x, Decision (P x)} (l : list A) :
  (∀ x, x ∈ l → ¬ P x) → filter P l = [].
Proof.
  induction l as [|x l IH]; intros Hl; [done|].
  rewrite filter_cons_False by (apply Hl; left).
  apply IH. intros y Hy. apply Hl. by right.
Qed.

Lemma head_filter_None {A} (P : A → Prop) `{∀ x, Decision (P x)} (l : list A) :
  head (filter P l) = None ↔ ∀ x, x ∈ l → ¬ P x.
Proof.
  rewrite head_None. split.
  - intros Hnil x Hx HP. by eapply filter_nil_not_elem_of.
  - apply filter_none; done.
Qed.

Lemma head_filter_Some {A} (P : A → Prop) `{∀ x, Decision (P x)} (l : list A) x :
  head (filter P l) = Some x → x ∈ l ∧ P x.
Proof.
  intros Hx. apply head_Some_elem_of, list_elem_of_filter in Hx. tauto.
Qed.

(** A key column identifies the row. *)
Lemma key_identifies_row {A K} (key : A → K) (l : list A) x y :
  NoDup (key <$> l) → x ∈ l → y ∈ l → key x = key y → x = y.
Proof.
  induction l as [|z l IH]; simpl; intros Hnd Hx Hy Hk; [by apply elem_of_nil in Hx|].
  apply NoDup_cons in Hnd as [Hz Hnd].
  apply elem_of_cons in Hx as [->|Hx], Hy as [->|Hy]; auto.
  - exfalso. apply Hz. rewrite Hk. by apply list_elem_of_fmap_2.
  - exfalso. apply Hz. rewrite <- Hk. by apply list_elem_of_fmap_2.
Qed.

Lemma owned_by_one_owner u1 u2 r : owned_by u1 r → owned_by u2 r → u1 = u2.
Proof. unfold owned_by. congruence. Qed.

(** ** Deleting chunks of a collection that does not exist *)

Lemma select_collection_by_name_missing collection_name d :
  collection_name ∉ (c_name <$> langchain_pg_collection d) →
  documents.select_collection_by_name collection_name d = Ok None.
Proof.
  intros Hmiss. unfold documents.select_collection_by_name. f_equal.
  apply head_filter_None. intros r Hr Hname. apply Hmiss.
  rewrite <- Hname. by apply list_elem_of_fmap_2.
Qed.

(** C9, as the code has it: when no collection bears the name, deleting by
    a non-empty list of file ids reports failure and changes nothing; an
    empty list is a success before the collection is looked up. *)
Theorem delete_documents_missing_collection
    (d : database) (collection_name : string) (file_ids : list string) :
  collection_name ∉ (c_name <$> langchain_pg_collection d) →
  documents.delete_documents_from_vectorstore collection_name file_ids (Up d)
  = (Ok (bool_decide (file_ids = [])), Up d).
Proof.
  intros Hmiss. unfold documents.delete_documents_from_vectorstore.
  destruct (decide (file_ids = [])) as [->|Hne]; [done|].
  rewrite bool_decide_eq_false_2 by done.
  unfold try_except.
  rewrite bind_run, conn_fetch_up, select_collection_by_name_missing by done.
  done.
Qed.

Lemma delete_documents_missing_collection_witness :
  documents.delete_documents_from_vectorstore "docs" ["f1"; "f2"] (Up no_tables)
  = (Ok false, Up no_tables).
Proof.
  apply (delete_documents_missing_collection no_tables "docs" ["f1"; "f2"]).
  vm_compute. by intros ?%elem_of_nil.
Defined.

(** C9, as stated, fails: with no file ids the operation reports success
    although the named collection does not exist. *)
Lemma delete_documents_nothing_to_delete :
  ("docs" ∉ (c_name <$> langchain_pg_collection no_tables))
  ∧ (documents.delete_documents_from_vectorstore "docs" [] (Up no_tables)
     = (Ok true, Up no_tables)).
Proof. split; [by intros ?%elem_of_nil|done]. Qed.

(** ** The id of a search hit *)

Section search.

Variable score : Type.
Variable similarity_search_with_score :
  string → string → Z → M (list (documents.Document * score)).

Lemma formatted_hit_id (doc : documents.Document) (sc : score) :
  documents.hit_id score (documents.formatted score (doc, sc))
  = documents.truthy_hit_id (documents.doc_metadata doc).
Proof.
  unfold documents.formatted, documents.truthy_hit_id, documents.truthy_entry,
    documents.py_or; simpl.
  destruct (documents.doc_metadata doc !! "uuid") as [v|]; simpl.
  - destruct (py_bool v) eqn:Hv; simpl; [by rewrite Hv|].
    destruct (documents.doc_metadata doc !! "id") as [w|]; [|done].
    simpl. by destruct (py_bool w).
  - destruct (documents.doc_metadata doc !! "id") as [w|]; [|done].
    simpl. by destruct (py_bool w).
Qed.

(** C10, as the code has it: every hit of the vector search is returned, in
    order, with its content, metadata and score; its id is the string of
    the [uuid] entry when that entry is present and truthy, otherwise of
    the [id] entry when present and truthy, otherwise none.  A hit with
    neither entry is returned with no id, and a failure of the search is
    the caller's. *)
Theorem search_formats_every_hit (collection_name query : string) (limit : Z) (b : backend) :
  documents.search_documents_in_vectorstore score similarity_search_with_score
    collection_name query limit b
  = match similarity_search_with_score collection_name query limit b with
    | (Ok hits, b') => (Ok (documents.formatted score <$> hits), b')
    | (Raise e, b') => (Raise e, b')
    end
  ∧ (∀ doc sc,
       documents.hit_id score (documents.formatted score (doc, sc))
         = documents.truthy_hit_id (documents.doc_metadata doc)
       ∧ documents.hit_page_content score (documents.formatted score (doc, sc))
         = documents.page_content doc
       ∧ documents.hit_metadata score (documents.formatted score (doc, sc))
         = documents.doc_metadata doc
       ∧ documents.hit_score score (documents.formatted score (doc, sc)) = sc)
  ∧ (∀ m : Metadata,
       m !! "uuid" = None → m !! "id" = None → documents.truthy_hit_id m = None).
Proof.
  split; [|split].
  - unfold documents.search_documents_in_vectorstore. rewrite bind_run.
    destruct (similarity_search_with_score _ _ _ _) as [[hits|e] b']; [|done].
    unfold mret, M_ret, documents.append_hit. f_equal. f_equal.
    apply (foldl_snoc_fmap (documents.formatted score) hits []).
  - intros doc sc. split; [apply formatted_hit_id|done].
  - intros m Hu Hi. unfold documents.truthy_hit_id, documents.truthy_entry.
    by rewrite Hu, Hi.
Qed.

End search.

(** C10, as stated, fails: a hit whose metadata holds the id [0] is returned
    without an id, where the string of the entry is ["0"]. *)
Lemma search_hit_with_falsy_id :
  (documents.search_documents_in_vectorstore Z (one_hit {["id" := VInt 0]})
     "docs" "query" 4 (Up no_tables)).1
  = Ok [ {| documents.hit_id := None;
            documents.hit_page_content := "text";
            documents.hit_metadata := {["id" := VInt 0]};
            documents.hit_score := 1 |} ]
  ∧ documents.spec_hit_id {["id" := VInt 0]} = Some "0".
Proof. split; reflexivity. Qed.

(** ** The registry on a reachable backend *)

Lemma get_run user_id collection_id d :
  collections.get user_id collection_id (Up d)
  = (Ok (collections.details
           <$> head (filter (collections.where_uuid_owner collection_id user_id)
                       (langchain_pg_collection d))),
     Up d).
Proof.
  unfold collections.get. rewrite bind_run, conn_fetch_up.
  by destruct (head _).
Qed.

Lemma get_by_name_run user_id collection_name d :
  collections._get_by_name user_id collection_name (Up d)
  = (Ok (collections.details
           <$> head (filter (collections.where_name_owner collection_name user_id)
                       (langchain_pg_collection d))),
     Up d).
Proof.
  unfold collections._get_by_name. rewrite bind_run, conn_fetch_up.
  by destruct (head _).
Qed.

Lemma list_run user_id d :
  collections.list user_id (Up d)
  = (Ok (collections.details
           <$> merge_sort collections.order_by_name
                 (filter (owned_by user_id) (langchain_pg_collection d))),
     Up d).
Proof. unfold collections.list. by rewrite bind_run, conn_fetch_up. Qed.

Lemma created_row_owned user_id collection_name metadata d :
  collections.where_name_owner collection_name user_id
    (created_row user_id collection_name metadata d).
Proof.
  split; [done|]. unfold owned_by, arrow_text; simpl.
  by rewrite lookup_insert_eq.
Qed.

Lemma create_run user_id collection_name metadata d :
  collections.create user_id collection_name metadata (Up d)
  = match head (filter (collections.where_name_owner collection_name user_id)
                  (langchain_pg_collection d)) with
    | Some _ => (Raise (conflict collection_name), Up d)
    | None =>
        (Ok (collections.details (created_row user_id collection_name metadata d)),
         Up (insert_collection (created_row user_id collection_name metadata d) d))
    end.
Proof.
  unfold collections.create. rewrite bind_run, get_by_name_run.
  destruct (head _) as [r|] eqn:Hhead; [done|]. simpl.
  rewrite bind_run. unfold get_vectorstore, conn_execute.
  rewrite bind_run, get_by_name_run. simpl.
  assert (match metadata with
          | Some m => if decide (m = ∅) then ∅ else m
          | None => ∅
          end = default ∅ metadata) as ->.
  { destruct metadata as [m|]; [|done]. simpl. by destruct (decide (m = ∅)) as [->|]. }
  fold (created_row user_id collection_name metadata d).
  rewrite filter_app. apply head_None in Hhead. rewrite Hhead. simpl.
  rewrite filter_cons_True by apply created_row_owned.
  done.
Qed.

Lemma update_run user_id collection_id new_name metadata d :
  collections.update user_id collection_id new_name metadata (Up d)
  = if decide (collections.unique_violation new_name collection_id user_id
                 (langchain_pg_collection d))
    then (Raise UniqueViolationError, Up d)
    else
      match head (filter (collections.where_uuid_owner collection_id user_id)
                    (langchain_pg_collection d)) with
      | Some r =>
          (Ok (collections.details
                 (collections.set_clause new_name
                    ((λ m, <["owner_id" := VStr user_id]> m) <$> metadata) r)),
           Up (updated user_id collection_id new_name metadata d))
      | None =>
          (Raise (not_found collection_id),
           Up (updated user_id collection_id new_name metadata d))
      end.
Proof.
  unfold collections.update. rewrite bind_run.
  unfold conn_execute, collections.update_statement.
  case_decide; [done|].
  fold (updated user_id collection_id new_name metadata d).
  by destruct (filter _ _).
Qed.

(** A violation needs a row to update. *)
Lemma unique_violation_hit new_name collection_id user_id rows :
  collections.unique_violation new_name collection_id user_id rows →
  ∃ r, r ∈ rows ∧ collections.where_uuid_owner collection_id user_id r.
Proof.
  destruct new_name as [n|]; [|done]. intros [Hhit _].
  apply Exists_exists in Hhit. exact Hhit.
Qed.

(** A violation is a matter of the caller's own rows. *)
Lemma unique_violation_own new_name collection_id user_id rows :
  collections.unique_violation new_name collection_id user_id
    (filter (owned_by user_id) rows)
  ↔ collections.unique_violation new_name collection_id user_id rows.
Proof.
  destruct new_name as [n|]; [|done]. simpl.
  rewrite !Exists_exists. split.
  - intros [(r & Hr & Hhit) (x & Hx & Hown)]. split.
    + exists r. split; [|done]. by apply list_elem_of_filter in Hr as [_ ?].
    + exists x. split; [|done]. by apply list_elem_of_filter in Hx as [_ ?].
  - intros [(r & Hr & Hhit) (x & Hx & Hown)]. split.
    + exists r. split; [|done]. apply list_elem_of_filter. split; [apply Hhit|done].
    + exists x. split; [|done]. apply list_elem_of_filter. split; [apply Hown|done].
Qed.

Lemma delete_run user_id collection_id d :
  collections.delete user_id collection_id (Up d)
  = if decide (filter (collections.where_uuid_owner collection_id user_id)
                 (langchain_pg_collection d) = [])
    then (Raise (not_found collection_id), Up (deleted user_id collection_id d))
    else (Ok (Z.of_nat (length (filter (collections.where_uuid_owner collection_id user_id)
                                  (langchain_pg_collection d)))),
          Up (deleted user_id collection_id d)).
Proof.
  unfold collections.delete. rewrite bind_run.
  unfold conn_execute, collections.delete_statement.
  fold (deleted user_id collection_id d).
  destruct (filter _ (langchain_pg_collection d)) as [|r l] eqn:Hf;
    repeat case_decide; simplify_eq/=; done || lia.
Qed.

Lemma filter_key_unique {A K} (key : A → K) (P : A → Prop) `{∀ x, Decision (P x)}
    (l : list A) (r : A) :
  NoDup (key <$> l) → r ∈ l → P r → (∀ x, P x → key x = key r) →
  filter P l = [r].
Proof.
  intros Hnd Hr HP Hkey. induction l as [|x l IH]; [by apply elem_of_nil in Hr|].
  simpl in Hnd. apply NoDup_cons in Hnd as [Hx Hnd].
  apply elem_of_cons in Hr as [<-|Hr].
  - rewrite filter_cons_True by done. f_equal.
    apply filter_none. intros y Hy HPy. apply Hx.
    rewrite <- (Hkey y HPy). by apply list_elem_of_fmap_2.
  - rewrite filter_cons_False; [by apply IH|].
    intros HPx. apply Hx. rewrite (Hkey x HPx). by apply list_elem_of_fmap_2.
Qed.

(** ** Collections of another owner are as good as absent *)

(** C5: to a caller, a collection id of another owner and an id that no
    row bears give the same outcome, the absent collection, and leave the
    tables alone. *)
Theorem get_foreign_is_not_found
    (d : database) (r : collection_row) (u1 u2 missing_id : string) :
  NoDup (c_uuid <$> langchain_pg_collection d) →
  r ∈ langchain_pg_collection d →
  owned_by u2 r →
  u1 ≠ u2 →
  missing_id ∉ (c_uuid <$> langchain_pg_collection d) →
  collections.get u1 (c_uuid r) (Up d) = (Ok None, Up d)
  ∧ collections.get u1 missing_id (Up d) = (Ok None, Up d).
Proof.
  intros Hkey Hr Hown Hne Hmiss. rewrite !get_run. split.
  - rewrite filter_none; [done|]. intros x Hx [Hid Hx1].
    assert (x = r) as -> by (by eapply (key_identifies_row c_uuid)).
    apply Hne. by eapply owned_by_one_owner.
  - rewrite filter_none; [done|]. intros x Hx [Hid _].
    apply Hmiss. rewrite <- Hid. by apply list_elem_of_fmap_2.
Qed.

Lemma get_foreign_is_not_found_witness :
  collections.get "user1" "c2" (Up two_owners) = (Ok None, Up two_owners)
  ∧ collections.get "user1" "c9" (Up two_owners) = (Ok None, Up two_owners).
Proof.
  apply (get_foreign_is_not_found two_owners user2_docs "user1" "user2" "c9").
  - decided.
  - decided.
  - reflexivity.
  - discriminate.
  - decided.
Defined.

(** ** Creating a collection *)

Lemma name_taken_head user_id collection_name d :
  (∃ r, r ∈ langchain_pg_collection d
        ∧ collections.where_name_owner collection_name user_id r)
  ↔ is_Some (head (filter (collections.where_name_owner collection_name user_id)
                     (langchain_pg_collection d))).
Proof.
  split.
  - intros (r & Hr & HP). apply head_is_Some. intros Hnil.
    by eapply filter_nil_not_elem_of.
  - intros [r Hr]. exists r. by apply head_filter_Some in Hr.
Qed.

(** C8: [create] raises the conflict exactly when the caller already owns a
    collection of that name, and returns the new collection otherwise; so a
    second creation under the same owner and name is a conflict, while two
    owners may each create a collection of one name. *)
Theorem create_conflicts_per_owner
    (d : database) (user_id collection_name : string) (metadata : option Metadata) :
  ((∃ r, r ∈ langchain_pg_collection d
         ∧ collections.where_name_owner collection_name user_id r)
   ↔ (collections.create user_id collection_name metadata (Up d)).1
     = Raise (conflict collection_name))
  ∧ ((¬ ∃ r, r ∈ langchain_pg_collection d
             ∧ collections.where_name_owner collection_name user_id r)
     ↔ ∃ created d',
         collections.create user_id collection_name metadata (Up d)
         = (Ok created, Up d'))
  ∧ (∀ created b' metadata',
       collections.create user_id collection_name metadata (Up d) = (Ok created, b') →
       collections.create user_id collection_name metadata' b'
       = (Raise (conflict collection_name), b'))
  ∧ (∀ other metadata',
       other ≠ user_id →
       (∀ r, r ∈ langchain_pg_collection d →
             ¬ collections.where_name_owner collection_name user_id r) →
       (∀ r, r ∈ langchain_pg_collection d →
             ¬ collections.where_name_owner collection_name other r) →
       ∃ first b' second b'',
         collections.create user_id collection_name metadata (Up d) = (Ok first, b')
         ∧ collections.create other collection_name metadata' b' = (Ok second, b'')).
Proof.
  rewrite !name_taken_head. rewrite create_run.
  split; [|split; [|split]].
  - destruct (head _) as [r|]; simpl; split; try done; by intros [? ?].
  - destruct (head _) as [r|]; simpl; split.
    + intros Hno. destruct Hno. by eexists.
    + by intros (? & ? & ?).
    + intros _. by eexists _, _.
    + by intros _ [? ?].
  - intros created b' metadata'.
    destruct (head _) as [r|] eqn:Hhead; [done|]. intros [= <- <-].
    rewrite create_run. simpl. rewrite filter_app.
    apply head_None in Hhead. rewrite Hhead. simpl.
    by rewrite filter_cons_True by apply created_row_owned.
  - intros other metadata' Hother Hfree Hfree'.
    rewrite filter_none by done.
    simpl. eexists _, _, _, _. split; [reflexivity|].
    rewrite create_run. simpl.
    rewrite filter_app, filter_none by done.
    rewrite filter_cons_False; [reflexivity|].
    intros [_ Hown]. apply Hother.
    eapply owned_by_one_owner; [exact Hown|].
    apply (created_row_owned user_id collection_name metadata d).
Qed.

Lemma create_conflicts_per_owner_witness :
  ∃ first b' second b'',
    collections.create "user1" "docs" None (Up user2_only) = (Ok first, b')
    ∧ collections.create "user3" "docs" (Some {["a" := VInt 1]}) b' = (Ok second, b'').
Proof.
  apply (proj2 (proj2 (proj2
           (create_conflicts_per_owner user2_only "user1" "docs" None)))).
  - discriminate.
  - apply Forall_forall. decided.
  - apply Forall_forall. decided.
Defined.

(** ** The owner of what is written *)

Lemma owned_by_set_clause user_id new_name metadata r :
  owned_by user_id r →
  owned_by user_id
    (collections.set_clause new_name
       ((λ m, <["owner_id" := VStr user_id]> m) <$> metadata) r).
Proof.
  intros Hown. destruct metadata as [m|]; [|done].
  unfold owned_by, arrow_text; simpl. by rewrite lookup_insert_eq.
Qed.

Lemma owned_by_is_Some user_id r : owned_by user_id r → is_Some (c_cmetadata r).
Proof. unfold owned_by, arrow_text. by destruct (c_cmetadata r). Qed.

(** C2: whatever metadata the caller passes, what [create] and [update]
    return belongs to a stored row whose [owner_id] is the caller; where
    the call writes metadata, the entry is the caller's id itself. *)
Theorem owner_id_is_the_caller (d : database) (user_id : string) :
  (∀ collection_name metadata created b',
     collections.create user_id collection_name metadata (Up d) = (Ok created, b') →
     collections.metadata created !! "owner_id" = Some (VStr user_id)
     ∧ ∃ d' r, b' = Up d' ∧ r ∈ langchain_pg_collection d'
               ∧ collections.details r = created
               ∧ c_cmetadata r = Some (collections.metadata created))
  ∧ (∀ collection_id new_name metadata updated_ b',
       collections.update user_id collection_id new_name metadata (Up d)
       = (Ok updated_, b') →
       Some (collections.metadata updated_) ->> "owner_id" = Some user_id
       ∧ (is_Some metadata →
          collections.metadata updated_ !! "owner_id" = Some (VStr user_id))
       ∧ ∃ d' r, b' = Up d' ∧ r ∈ langchain_pg_collection d'
                 ∧ collections.details r = updated_
                 ∧ c_cmetadata r = Some (collections.metadata updated_)).
Proof.
  split.
  - intros collection_name metadata created b'. rewrite create_run.
    destruct (head _); [done|]. intros [= <- <-]. split.
    + simpl. by rewrite lookup_insert_eq.
    + eexists _, _. split; [done|]. split; [|done].
      simpl. apply elem_of_app. right. by apply list_elem_of_singleton.
  - intros collection_id new_name metadata updated_ b'. rewrite update_run.
    case_decide; [done|].
    destruct (head _) as [r|] eqn:Hhead; [|done]. intros [= <- <-].
    apply head_filter_Some in Hhead as [Hr [Hid Hown]].
    pose proof (owned_by_set_clause user_id new_name metadata r Hown) as Hown'.
    pose proof (owned_by_is_Some _ _ Hown') as [m' Hm'].
    split; [|split].
    + unfold collections.details, collections._parse_metadata.
      unfold owned_by in Hown'. cbn [collections.metadata].
      by rewrite Hm' in Hown' |- *.
    + intros [m ->]. simpl. by rewrite lookup_insert_eq.
    + eexists _, _. split; [done|]. split; [|split; [done|]].
      * unfold updated; simpl.
        apply (list_elem_of_fmap_2' _ _ r); [done|].
        by rewrite decide_True by done.
      * unfold collections.details, collections._parse_metadata.
        cbn [collections.metadata]. by rewrite Hm'.
Qed.

Lemma owner_id_is_the_caller_witness :
  collections.metadata
    {| collections.uuid := "c1"; collections.name := "stolen";
       collections.metadata := {["owner_id" := VStr "user1"]} |}
  !! "owner_id" = Some (VStr "user1").
Proof.
  refine (proj1 (proj2 (proj2 (owner_id_is_the_caller two_owners "user1")
                   "c1" (Some "stolen") (Some {["owner_id" := VStr "user2"]})
                   {| collections.uuid := "c1"; collections.name := "stolen";
                      collections.metadata := {["owner_id" := VStr "user1"]} |}
                   (Up (updated "user1" "c1" (Some "stolen")
                          (Some {["owner_id" := VStr "user2"]}) two_owners))
                   _)) _).
  - vm_compute. reflexivity.
  - by eexists.
Defined.

(** ** Updating a collection *)

Lemma unique_violation_taken d r user_id new_name :
  NoDup (c_uuid <$> langchain_pg_collection d) →
  r ∈ langchain_pg_collection d →
  owned_by user_id r →
  collections.unique_violation new_name (c_uuid r) user_id (langchain_pg_collection d)
  ↔ name_taken_by_another user_id new_name r d.
Proof.
  intros Hkey Hr Hown. unfold name_taken_by_another.
  destruct new_name as [n|]; simpl; [|split; [done|by intros (? & ? & ? & _)]].
  rewrite !Exists_exists. split.
  - intros [_ (x & Hx & Hownx & Hname & Hid)]. exists n, x.
    repeat split; try done. by intros ->.
  - intros (n' & x & [= <-] & Hx & Hownx & Hname & Hne). split.
    + exists r. by repeat split.
    + exists x. repeat split; try done. intros Hid. apply Hne.
      by eapply (key_identifies_row c_uuid).
Qed.

(** C6: on the caller's own collection, unless another collection of the
    caller bears the new name, [update] stores and returns the new name
    when one is given and the old one otherwise, and the metadata argument
    under the caller's [owner_id] when one is given, with nothing of the
    old metadata merged in, and the old metadata otherwise; every other
    row stays as it is.  When another collection of the caller bears the
    new name, the uniqueness violation of the backend is raised and
    nothing is stored. *)
Theorem update_replaces_wholesale
    (d : database) (r : collection_row) (user_id : string)
    (new_name : option string) (metadata : option Metadata) :
  NoDup (c_uuid <$> langchain_pg_collection d) →
  r ∈ langchain_pg_collection d →
  owned_by user_id r →
  let r' :=
    {| c_uuid := c_uuid r;
       c_name := default (c_name r) new_name;
       c_cmetadata :=
         match metadata with
         | Some m => Some (<["owner_id" := VStr user_id]> m)
         | None => c_cmetadata r
         end |} in
  (¬ name_taken_by_another user_id new_name r d →
   collections.update user_id (c_uuid r) new_name metadata (Up d)
   = (Ok (collections.details r'),
      Up {| langchain_pg_collection :=
              (λ x, if decide (x = r) then r' else x) <$> langchain_pg_collection d;
            langchain_pg_embedding := langchain_pg_embedding d |}))
  ∧ (name_taken_by_another user_id new_name r d →
     collections.update user_id (c_uuid r) new_name metadata (Up d)
     = (Raise UniqueViolationError, Up d)).
Proof.
  intros Hkey Hr Hown r'. rewrite update_run.
  pose proof (unique_violation_taken d r user_id new_name Hkey Hr Hown) as Hviolation.
  split; intros Htaken;
    [rewrite decide_False by (by rewrite Hviolation)
    |by rewrite decide_True by (by rewrite Hviolation)].
  assert (∀ x, x ∈ langchain_pg_collection d →
               collections.where_uuid_owner (c_uuid r) user_id x ↔ x = r) as Hhit.
  { intros x Hx. split; [|by intros ->].
    intros [Hid _]. by eapply (key_identifies_row c_uuid). }
  rewrite (filter_key_unique c_uuid _ _ r); [|done|done|done|by intros x []].
  assert (collections.set_clause new_name
            ((λ m, <["owner_id" := VStr user_id]> m) <$> metadata) r = r') as Hset.
  { unfold collections.set_clause, r'. by destruct new_name, metadata. }
  simpl. rewrite Hset. unfold updated. do 3 f_equal.
  apply Forall_fmap_ext, Forall_forall. intros x Hx.
  destruct (decide (collections.where_uuid_owner _ _ x)) as [Hx'|Hx'].
  - apply Hhit in Hx' as ->; [|done]. by rewrite decide_True.
  - rewrite decide_False; [done|]. intros ->. by apply Hx'.
Qed.

(** The example of the specification: a collection created with [{"a": 1}]
    and updated with [{"a": 2}] holds [{"a": 2}] under the caller's
    [owner_id]. *)
Example colA_is_created :
  collections.create "user1" "colA" (Some {["a" := VInt 1]}) (Up no_tables)
  = (Ok (collections.details colA), Up colA_created).
Proof. reflexivity. Qed.

Lemma update_replaces_wholesale_witness :
  collections.update "user1" "0" None (Some {["a" := VInt 2]}) (Up colA_created)
  = (Ok {| collections.uuid := "0"; collections.name := "colA";
           collections.metadata := {["a" := VInt 2; "owner_id" := VStr "user1"]} |},
     Up {| langchain_pg_collection :=
             [ {| c_uuid := "0"; c_name := "colA";
                  c_cmetadata := Some {["a" := VInt 2; "owner_id" := VStr "user1"]} |} ];
           langchain_pg_embedding := [] |}).
Proof.
  etrans.
  - refine (proj1 (update_replaces_wholesale colA_created colA "user1" None
                     (Some {["a" := VInt 2]}) _ _ _) _).
    + decided.
    + decided.
    + reflexivity.
    + by intros (n & x & [=] & _).
  - vm_compute. reflexivity.
Defined.

(** The example of the tests: with [colA] and [colB] of one owner,
    renaming [colA] to [colB] is refused and renaming it to [colC] is
    done. *)
Example rename_to_a_taken_name :
  collections.update "user1" "0" (Some "colB") None (Up colA_colB)
  = (Raise UniqueViolationError, Up colA_colB)
  ∧ (collections.update "user1" "0" (Some "colC") (Some {["x" := VStr "y"]})
       (Up colA_colB)).1
    = Ok {| collections.uuid := "0"; collections.name := "colC";
            collections.metadata := {["x" := VStr "y"; "owner_id" := VStr "user1"]} |}.
Proof. split; reflexivity. Qed.

(** ** The listing of documents: orders *)

#[global] Instance order_by_file_id_id_total : Total documents.order_by_file_id_id.
Proof.
  intros [i1 f1] [i2 f2]. unfold documents.order_by_file_id_id; simpl.
  destruct (decide (f1 = f2)) as [->|Hne].
  - destruct (total String.le i1 i2); [left|right]; by right.
  - destruct (total String.le f1 f2); [left|right]; left; by apply strict_spec_alt.
Qed.

#[global] Instance order_by_file_id_id_trans : Transitive documents.order_by_file_id_id.
Proof.
  intros [i1 f1] [i2 f2] [i3 f3]. unfold documents.order_by_file_id_id; simpl.
  intros [H12|[-> H12]] [H23|[-> H23]].
  - left. by trans f2.
  - by left.
  - by left.
  - right. split; [done|]. by trans i2.
Qed.

#[global] Instance order_by_ufc_file_id_total : Total documents.order_by_ufc_file_id.
Proof. intros x y. apply (total String.le). Qed.

#[global] Instance order_by_ufc_file_id_trans : Transitive documents.order_by_ufc_file_id.
Proof. intros x y z. unfold documents.order_by_ufc_file_id. apply transitivity. Qed.

Lemma order_by_file_id_id_le x y :
  documents.order_by_file_id_id x y → String.le x.2 y.2.
Proof. intros [[? _]|[-> _]]; [done|]. reflexivity. Qed.

(** Strictly ascending keys do not repeat. *)
Lemma strictly_sorted_NoDup {A} (key : A → string) (l : list A) :
  StronglySorted (λ x y, strict String.le (key x) (key y)) l → NoDup (key <$> l).
Proof.
  induction 1 as [|x l Hl IH Hx]; simpl; constructor; [|done].
  intros (y & Hxy & Hy)%list_elem_of_fmap.
  rewrite Forall_forall in Hx. apply Hx in Hy. by apply strict_ne in Hy.
Qed.

(** Ascending keys that do not repeat ascend strictly. *)
Lemma sorted_NoDup_strictly {A} (key : A → string) (l : list A) :
  StronglySorted (λ x y, String.le (key x) (key y)) l →
  NoDup (key <$> l) →
  StronglySorted (λ x y, strict String.le (key x) (key y)) l.
Proof.
  induction 1 as [|x l Hl IH Hx]; simpl; intros Hnd; constructor.
  - apply IH. by apply NoDup_cons in Hnd as [_ ?].
  - apply NoDup_cons in Hnd as [Hnotin _].
    rewrite Forall_forall in Hx |- *. intros y Hy.
    apply strict_spec_alt. split; [by apply Hx|].
    intros Heq. apply Hnotin. rewrite Heq. by apply list_elem_of_fmap_2.
Qed.

(** ** The listing of documents: one row per file id *)

Section distinct_on.

Implicit Types (prev : option string) (l : list (string * string)).

Lemma distinct_on_elem prev l x :
  x ∈ documents.distinct_on_file_id prev l → x ∈ l.
Proof.
  revert prev. induction l as [|a l IH]; intros prev; simpl; [done|].
  case_decide.
  - intros ?%IH. by right.
  - intros [->|?%IH]%elem_of_cons; [by left|by right].
Qed.

Lemma distinct_on_strictly_sorted prev l :
  StronglySorted documents.order_by_file_id_id l →
  (∀ p, prev = Some p → Forall (λ x, String.le p x.2) l) →
  StronglySorted (λ x y, strict String.le x.2 y.2) (documents.distinct_on_file_id prev l)
  ∧ Forall (λ x, ∀ p, prev = Some p → strict String.le p x.2)
      (documents.distinct_on_file_id prev l).
Proof.
  intros Hsorted. revert prev.
  induction Hsorted as [|a l Hl IH Ha]; intros prev Hprev; simpl; [by split; constructor|].
  case_decide as Hdec.
  - apply IH. intros p Hp. specialize (Hprev p Hp). by inversion Hprev.
  - destruct (IH (Some a.2)) as [IH1 IH2].
    { intros p [= <-]. eapply Forall_impl; [exact Ha|].
      intros x. apply order_by_file_id_id_le. }
    assert (∀ p, prev = Some p → strict String.le p a.2) as Hpa.
    { intros p Hp. apply strict_spec_alt. specialize (Hprev p Hp).
      apply Forall_cons in Hprev as [Hpa _]. split; [done|].
      intros Heq. apply Hdec. by rewrite Hp, Heq. }
    split; constructor; try done.
    + eapply Forall_impl; [exact IH2|]. intros x Hx. by apply Hx.
    + eapply Forall_impl; [exact IH2|]. intros x Hx p Hp.
      trans a.2; [by apply Hpa|by apply Hx].
Qed.

Lemma distinct_on_first prev l x y :
  StronglySorted documents.order_by_file_id_id l →
  (∀ p, prev = Some p → Forall (λ x, String.le p x.2) l) →
  x ∈ documents.distinct_on_file_id prev l → y ∈ l → y.2 = x.2 →
  String.le x.1 y.1.
Proof.
  intros Hsorted. revert prev.
  induction Hsorted as [|a l Hl IH Ha]; intros prev Hprev; simpl;
    [by intros ?%elem_of_nil|].
  assert (Forall (λ x, String.le a.2 x.2) l) as Ha'.
  { eapply Forall_impl; [exact Ha|]. intros z. apply order_by_file_id_id_le. }
  case_decide as Hdec.
  - intros Hx Hy Heq.
    assert (∀ p, prev = Some p → Forall (λ x, String.le p x.2) l) as Hprev'.
    { intros p Hp. specialize (Hprev p Hp). by inversion Hprev. }
    apply elem_of_cons in Hy as [->|Hy]; [|by eapply IH].
    exfalso. destruct (distinct_on_strictly_sorted prev l Hl Hprev') as [_ Hstrict].
    rewrite Forall_forall in Hstrict.
    apply (strict_ne (R := String.le) a.2 x.2); [|done].
    by apply Hstrict.
  - intros [->|Hx]%elem_of_cons Hy Heq.
    + apply elem_of_cons in Hy as [->|Hy]; [reflexivity|].
      rewrite Forall_forall in Ha. destruct (Ha y Hy) as [Hlt|[_ Hle]]; [|done].
      exfalso. by apply (strict_ne (R := String.le) a.2 y.2).
    + assert (∀ p, Some a.2 = Some p → Forall (λ x, String.le p x.2) l) as Hprev'.
      { by intros p [= <-]. }
      apply elem_of_cons in Hy as [->|Hy]; [|by eapply IH].
      exfalso. destruct (distinct_on_strictly_sorted (Some a.2) l Hl Hprev') as [_ Hstrict].
      rewrite Forall_forall in Hstrict.
      apply (strict_ne (R := String.le) a.2 x.2); [|done].
      by apply Hstrict.
Qed.

Lemma distinct_on_complete prev l y :
  y ∈ l → prev ≠ Some y.2 →
  ∃ x, x ∈ documents.distinct_on_file_id prev l ∧ x.2 = y.2.
Proof.
  revert prev. induction l as [|a l IH]; intros prev; simpl; [by intros ?%elem_of_nil|].
  intros Hy Hprev. case_decide as Hdec.
  - apply elem_of_cons in Hy as [->|Hy]; [done|]. by apply IH.
  - apply elem_of_cons in Hy as [->|Hy]; [exists a; split; [by left|done]|].
    destruct (decide (a.2 = y.2)) as [Heq|Hne]; [exists a; split; [by left|done]|].
    destruct (IH (Some a.2) Hy) as (x & Hx & Hxy); [congruence|].
    exists x. split; [by right|done].
Qed.

End distinct_on.

(** ** The listing of documents: the query *)

Section listing.

Variable d : database.
Variable collection_uuid : string.

Abbreviation file_chunk := (file_chunk_of d collection_uuid).

Lemma file_chunks_elem (u : string * string) :
  u ∈ documents.file_chunks collection_uuid d
  ↔ ∃ e, file_chunk u.2 e ∧ e_id e = u.1.
Proof.
  unfold documents.file_chunks, file_chunk_of. rewrite list_elem_of_omap. split.
  - intros (e & He & Hu). case_decide as Hc; [|done].
    destruct (documents.file_id e) as [f|] eqn:Hf; simplify_eq/=. by exists e.
  - intros (e & (He & Hc & Hf) & Hid). exists e. split; [done|].
    rewrite decide_True by done. rewrite Hf. simpl. destruct u; simpl in *. by subst.
Qed.

Lemma sorted_file_chunks :
  StronglySorted documents.order_by_file_id_id
    (merge_sort documents.order_by_file_id_id (documents.file_chunks collection_uuid d)).
Proof. apply (StronglySorted_merge_sort _). Qed.

Lemma UniqueFileChunks_elem u :
  u ∈ documents.UniqueFileChunks collection_uuid d →
  u ∈ documents.file_chunks collection_uuid d.
Proof.
  intros Hu%distinct_on_elem. by rewrite merge_sort_Permutation in Hu.
Qed.

Lemma UniqueFileChunks_strictly_sorted :
  StronglySorted (λ x y, strict String.le x.2 y.2)
    (documents.UniqueFileChunks collection_uuid d).
Proof.
  by apply distinct_on_strictly_sorted; [apply sorted_file_chunks|].
Qed.

Lemma UniqueFileChunks_lowest u c :
  u ∈ documents.UniqueFileChunks collection_uuid d →
  c ∈ documents.file_chunks collection_uuid d →
  c.2 = u.2 → String.le u.1 c.1.
Proof.
  intros Hu Hc Heq.
  eapply (distinct_on_first None); [apply sorted_file_chunks|done|exact Hu| |done].
  by rewrite merge_sort_Permutation.
Qed.

Lemma UniqueFileChunks_complete c :
  c ∈ documents.file_chunks collection_uuid d →
  ∃ u, u ∈ documents.UniqueFileChunks collection_uuid d ∧ u.2 = c.2.
Proof.
  intros Hc. apply distinct_on_complete; [|done].
  by rewrite merge_sort_Permutation.
Qed.

Lemma join_cell (e : embedding_row) (u y1 : string * string) (y0 : embedding_row) :
  (y0, y1) ∈ (if decide (e_id e = u.1) then [(e, u)] else [])
  → y0 = e ∧ y1 = u ∧ e_id e = u.1.
Proof.
  case_decide; [|by intros ?%elem_of_nil].
  intros [= -> ->]%list_elem_of_singleton. done.
Qed.

Lemma join_on_id_elem embs ufcs e u :
  (e, u) ∈ documents.join_on_id embs ufcs ↔ e ∈ embs ∧ u ∈ ufcs ∧ e_id e = u.1.
Proof.
  unfold documents.join_on_id. rewrite list_elem_of_bind. split.
  - intros (e' & (u' & Hif & Hu')%list_elem_of_bind & He').
    apply join_cell in Hif as (-> & -> & ?). done.
  - intros (He & Hu & Hid). exists e. split; [|done].
    apply list_elem_of_bind. exists u. split; [|done].
    rewrite decide_True by done. by apply list_elem_of_singleton.
Qed.

Lemma join_on_id_NoDup embs ufcs :
  NoDup embs → NoDup ufcs → NoDup (documents.join_on_id embs ufcs).
Proof.
  intros Hembs Hufcs. unfold documents.join_on_id. apply NoDup_bind; [| |done].
  - intros e1 e2 [e u] _ _ (u1 & H1 & _)%list_elem_of_bind (u2 & H2 & _)%list_elem_of_bind.
    apply join_cell in H1 as (-> & _), H2 as (-> & _). done.
  - intros e _. apply NoDup_bind; [| |done].
    + intros u1 u2 [e' u] _ _ H1 H2.
      apply join_cell in H1 as (_ & -> & _), H2 as (_ & -> & _). done.
    + intros u _. case_decide; [apply NoDup_singleton|apply NoDup_nil_2].
Qed.

(** From here on chunk ids are unique: [id] is a key of the chunks. *)
Hypothesis id_is_key : NoDup (e_id <$> langchain_pg_embedding d).

Abbreviation joined :=
  (documents.join_on_id (langchain_pg_embedding d)
     (documents.UniqueFileChunks collection_uuid d)).

Lemma joined_elem e u :
  (e, u) ∈ joined ↔ u ∈ documents.UniqueFileChunks collection_uuid d
                    ∧ file_chunk u.2 e ∧ e_id e = u.1.
Proof.
  rewrite join_on_id_elem. split.
  - intros (He & Hu & Hid). split; [done|]. split; [|done].
    pose proof (UniqueFileChunks_elem u Hu) as Hc.
    apply file_chunks_elem in Hc as (e0 & Hfc & Hid0).
    assert (e = e0) as ->; [|done].
    eapply (key_identifies_row e_id); [exact id_is_key|done|apply Hfc|congruence].
  - intros (Hu & (He & _) & Hid). done.
Qed.

Lemma joined_keys_NoDup : NoDup ((λ x : embedding_row * (string * string), x.2.2) <$> joined).
Proof.
  pose proof UniqueFileChunks_strictly_sorted as Hufc.
  apply (strictly_sorted_NoDup snd) in Hufc.
  apply NoDup_fmap_2_strong.
  - intros [e1 u1] [e2 u2] Hj1 Hj2 Heq. simpl in Heq.
    apply join_on_id_elem in Hj1 as (He1 & Hu1 & Hid1).
    apply join_on_id_elem in Hj2 as (He2 & Hu2 & Hid2).
    assert (u1 = u2) as -> by (by eapply (key_identifies_row snd)).
    f_equal.
    eapply (key_identifies_row e_id); [exact id_is_key|done|done|congruence].
  - apply join_on_id_NoDup; [by eapply NoDup_fmap_1|by eapply NoDup_fmap_1].
Qed.

Lemma query_elem e :
  e ∈ documents.unique_file_chunks_query collection_uuid d
  ↔ ∃ u, (e, u) ∈ joined.
Proof.
  unfold documents.unique_file_chunks_query. rewrite list_elem_of_fmap. split.
  - intros ([e' u] & -> & Hx). rewrite merge_sort_Permutation in Hx. by exists u.
  - intros (u & Hu). exists (e, u). split; [done|]. by rewrite merge_sort_Permutation.
Qed.

(** The rows of the query are chunks of the collection that belong to a
    file. *)
Lemma query_file_chunks e :
  e ∈ documents.unique_file_chunks_query collection_uuid d →
  ∃ f, file_chunk f e.
Proof. intros (u & Hu)%query_elem. apply joined_elem in Hu. exists u.2. tauto. Qed.

(** They ascend strictly by file id. *)
Lemma query_strictly_sorted :
  StronglySorted
    (λ e1 e2, ∃ f1 f2, documents.file_id e1 = Some f1 ∧ documents.file_id e2 = Some f2
                       ∧ strict String.le f1 f2)
    (documents.unique_file_chunks_query collection_uuid d).
Proof.
  unfold documents.unique_file_chunks_query.
  set (S := merge_sort documents.order_by_ufc_file_id joined).
  assert (StronglySorted (λ x y : embedding_row * (string * string),
            strict String.le x.2.2 y.2.2) S) as Hstrict.
  { apply (sorted_NoDup_strictly (λ x : embedding_row * (string * string), x.2.2)).
    - apply (StronglySorted_merge_sort _).
    - unfold S. rewrite merge_sort_Permutation. apply joined_keys_NoDup. }
  assert (Forall (λ x : embedding_row * (string * string),
            documents.file_id x.1 = Some x.2.2) S) as Hfile.
  { apply Forall_forall. intros [e u] Hx. unfold S in Hx.
    rewrite merge_sort_Permutation in Hx. apply joined_elem in Hx.
    simpl. apply Hx. }
  clearbody S. induction Hstrict as [|x S HS IH Hx]; simpl; constructor.
  - apply IH. by apply Forall_cons in Hfile as [_ ?].
  - apply Forall_cons in Hfile as [Hfx Hfile].
    rewrite Forall_fmap. rewrite Forall_forall in Hx, Hfile |- *.
    intros y Hy. exists x.2.2, y.2.2. simpl. auto.
Qed.

(** Each one has the lowest id among the chunks of its file. *)
Lemma query_lowest_id e e' f :
  e ∈ documents.unique_file_chunks_query collection_uuid d →
  documents.file_id e = Some f → file_chunk f e' →
  String.le (e_id e) (e_id e').
Proof.
  intros (u & Hu)%query_elem Hf Hfc'.
  apply joined_elem in Hu as (Hu & (_ & _ & Hfu) & Hid).
  assert (f = u.2) as -> by congruence.
  rewrite Hid.
  apply (UniqueFileChunks_lowest u (e_id e', u.2)); [done| |done].
  apply file_chunks_elem. by exists e'.
Qed.

(** Every file of the collection has its row. *)
Lemma query_complete e' f :
  file_chunk f e' →
  ∃ e, e ∈ documents.unique_file_chunks_query collection_uuid d
       ∧ documents.file_id e = Some f.
Proof.
  intros Hfc'.
  destruct (UniqueFileChunks_complete (e_id e', f)) as (u & Hu & Hf).
  { apply file_chunks_elem. by exists e'. }
  simpl in Hf. subst f.
  pose proof (UniqueFileChunks_elem u Hu) as Hc.
  apply file_chunks_elem in Hc as (e & Hfc & Hid).
  exists e. split; [|apply Hfc].
  apply query_elem. exists u. by apply joined_elem.
Qed.

End listing.

Lemma list_documents_run collection_name limit offset d :
  documents.list_documents_in_vectorstore collection_name limit offset (Up d)
  = (Ok match head (filter (λ r, c_name r = collection_name) (langchain_pg_collection d)) with
        | None => []
        | Some r =>
            match documents.list_query (c_uuid r) limit offset d with
            | Ok records => documents.listed (c_uuid r) <$> records
            | Raise _ => []
            end
        end,
     Up d).
Proof.
  unfold documents.list_documents_in_vectorstore, try_except.
  rewrite bind_run, conn_fetch_up. unfold documents.select_collection_by_name.
  destruct (head _) as [r|]; [|done].
  rewrite bind_run, conn_fetch_up.
  destruct (documents.list_query _ _ _ _) as [records|e]; [|by destruct e].
  unfold mret, M_ret, documents.append_listed. do 2 f_equal.
  apply (foldl_snoc_fmap (documents.listed (c_uuid r)) records []).
Qed.

Lemma list_query_in_range collection_uuid limit offset d :
  0 ≤ limit < 2 ^ 63 → 0 ≤ offset < 2 ^ 63 →
  documents.list_query collection_uuid limit offset d
  = Ok (take (Z.to_nat limit)
          (drop (Z.to_nat offset) (documents.unique_file_chunks_query collection_uuid d))).
Proof.
  intros Hl Ho. unfold documents.list_query.
  rewrite decide_True by lia. by rewrite decide_True by lia.
Qed.

Lemma list_query_out_of_range collection_uuid limit offset d :
  ¬ (0 ≤ limit < 2 ^ 63 ∧ 0 ≤ offset < 2 ^ 63) →
  ∃ e, documents.list_query collection_uuid limit offset d = Raise e.
Proof.
  intros Hout. unfold documents.list_query.
  case_decide; [|by eexists]. rewrite decide_False by lia. by eexists.
Qed.

(** C7: when the name resolves to a collection, the listing is a page of
    its representatives: chunks of the collection that belong to a file,
    one per file id and by ascending file id, each the chunk of lowest id
    of its file, every file having one; [offset] representatives are
    skipped and at most [limit] returned.  A limit or an offset that is
    negative, or too large for the statement, gives the empty listing. *)
Theorem list_documents_deduplicates
    (d : database) (r : collection_row) (collection_name : string) :
  NoDup (e_id <$> langchain_pg_embedding d) →
  documents.select_collection_by_name collection_name d = Ok (Some r) →
  ∃ representatives : list embedding_row,
    (∀ e, e ∈ representatives → ∃ f, file_chunk_of d (c_uuid r) f e)
    ∧ StronglySorted
        (λ e1 e2, ∃ f1 f2, documents.file_id e1 = Some f1
                           ∧ documents.file_id e2 = Some f2
                           ∧ strict String.le f1 f2)
        representatives
    ∧ (∀ e e' f, e ∈ representatives → documents.file_id e = Some f →
                 file_chunk_of d (c_uuid r) f e' → String.le (e_id e) (e_id e'))
    ∧ (∀ e' f, file_chunk_of d (c_uuid r) f e' →
               ∃ e, e ∈ representatives ∧ documents.file_id e = Some f)
    ∧ (∀ limit offset, 0 ≤ limit < 2 ^ 63 → 0 ≤ offset < 2 ^ 63 →
         documents.list_documents_in_vectorstore collection_name limit offset (Up d)
         = (Ok (documents.listed (c_uuid r)
                  <$> take (Z.to_nat limit) (drop (Z.to_nat offset) representatives)),
            Up d))
    ∧ (∀ limit offset, ¬ (0 ≤ limit < 2 ^ 63 ∧ 0 ≤ offset < 2 ^ 63) →
         documents.list_documents_in_vectorstore collection_name limit offset (Up d)
         = (Ok [], Up d)).
Proof.
  intros Hkey [= Hr].
  exists (documents.unique_file_chunks_query (c_uuid r) d).
  split; [|split; [|split; [|split; [|split]]]].
  - intros e. by apply query_file_chunks.
  - by apply query_strictly_sorted.
  - intros e e' f. by apply query_lowest_id.
  - intros e' f. by apply query_complete.
  - intros limit offset Hl Ho.
    by rewrite list_documents_run, Hr, list_query_in_range.
  - intros limit offset Hout.
    rewrite list_documents_run, Hr.
    by destruct (list_query_out_of_range (c_uuid r) limit offset d Hout) as [e ->].
Qed.

Lemma list_documents_deduplicates_witness :
  ∃ representatives : list embedding_row,
    (∀ e, e ∈ representatives → ∃ f, file_chunk_of user2_only "c2" f e)
    ∧ StronglySorted
        (λ e1 e2, ∃ f1 f2, documents.file_id e1 = Some f1
                           ∧ documents.file_id e2 = Some f2
                           ∧ strict String.le f1 f2)
        representatives
    ∧ (∀ e e' f, e ∈ representatives → documents.file_id e = Some f →
                 file_chunk_of user2_only "c2" f e' → String.le (e_id e) (e_id e'))
    ∧ (∀ e' f, file_chunk_of user2_only "c2" f e' →
               ∃ e, e ∈ representatives ∧ documents.file_id e = Some f)
    ∧ (∀ limit offset, 0 ≤ limit < 2 ^ 63 → 0 ≤ offset < 2 ^ 63 →
         documents.list_documents_in_vectorstore "docs" limit offset (Up user2_only)
         = (Ok (documents.listed "c2"
                  <$> take (Z.to_nat limit) (drop (Z.to_nat offset) representatives)),
            Up user2_only))
    ∧ (∀ limit offset, ¬ (0 ≤ limit < 2 ^ 63 ∧ 0 ≤ offset < 2 ^ 63) →
         documents.list_documents_in_vectorstore "docs" limit offset (Up user2_only)
         = (Ok [], Up user2_only)).
Proof.
  apply (list_documents_deduplicates user2_only user2_docs "docs").
  - decided.
  - reflexivity.
Defined.

(** Three chunks of [f1], two of [f2] and one of no file are listed as two
    documents, and the second page of one holds the second. *)
Example listing_of_two_files :
  documents.id <$>
    match (documents.list_documents_in_vectorstore "docs" 10 0 (Up user2_only)).1 with
    | Ok listing => listing
    | Raise _ => []
    end = ["e1"; "e4"]
  ∧ documents.id <$>
      match (documents.list_documents_in_vectorstore "docs" 1 1 (Up user2_only)).1 with
      | Ok listing => listing
      | Raise _ => []
      end = ["e4"].
Proof. split; reflexivity. Qed.

(** ** Deleting a collection *)

Lemma cascade_removes_chunks gone chunks collection_id e :
  collection_id ∈ (c_uuid <$> gone) →
  e ∈ on_delete_cascade gone chunks → e_collection_id e ≠ collection_id.
Proof.
  unfold on_delete_cascade. intros Hgone [Hnot _]%list_elem_of_filter Heq.
  apply Hnot. by rewrite Heq.
Qed.

(** A listed document is a chunk found under the collection the name
    resolves to. *)
Lemma listed_document_has_chunk d collection_name limit offset listing doc :
  documents.list_documents_in_vectorstore collection_name limit offset (Up d)
  = (Ok listing, Up d) →
  doc ∈ listing →
  ∃ e, e ∈ langchain_pg_embedding d ∧ e_collection_id e = documents.collection_id doc.
Proof.
  rewrite list_documents_run. intros [= <-].
  destruct (head _) as [r|]; [|by intros ?%elem_of_nil].
  unfold documents.list_query. repeat case_decide; try by intros ?%elem_of_nil.
  intros (e & -> & He)%list_elem_of_fmap. simpl.
  apply (subseteq_take (A := embedding_row)), (subseteq_drop (A := embedding_row)) in He.
  apply query_elem in He as [u Hu].
  apply join_on_id_elem in Hu as (_ & Hu & _).
  apply UniqueFileChunks_elem, file_chunks_elem in Hu as (e0 & (He0 & Hc & _) & _).
  by exists e0.
Qed.

Lemma list_documents_missing d collection_name limit offset :
  collection_name ∉ (c_name <$> langchain_pg_collection d) →
  documents.list_documents_in_vectorstore collection_name limit offset (Up d)
  = (Ok [], Up d).
Proof.
  intros Hname. rewrite list_documents_run.
  destruct (head _) as [r|] eqn:Hhead; [|done].
  apply head_filter_Some in Hhead as [Hr <-].
  destruct Hname. by apply list_elem_of_fmap_2.
Qed.

Lemma cascade_of_collection user_id collection_id rows chunks :
  filter (collections.where_uuid_owner collection_id user_id) rows ≠ [] →
  on_delete_cascade (filter (collections.where_uuid_owner collection_id user_id) rows)
    chunks
  = filter (λ e, e_collection_id e ≠ collection_id) chunks.
Proof.
  intros Hgone. unfold on_delete_cascade. apply list_filter_iff. intros e.
  assert (∀ u, u ∈ c_uuid <$> filter (collections.where_uuid_owner collection_id user_id)
                               rows ↔ u = collection_id) as Huuids.
  { intros u. rewrite list_elem_of_fmap. split.
    - by intros (r & -> & [[? _] _]%list_elem_of_filter).
    - intros ->. destruct (filter _ rows) as [|r l] eqn:Hf; [done|].
      exists r. split; [|left].
      assert (r ∈ filter (collections.where_uuid_owner collection_id user_id) rows)
        as [[? _] _]%list_elem_of_filter by (rewrite Hf; left).
      done. }
  by rewrite Huuids.
Qed.

(** C3, as the code has it: a deletion that succeeds removes the caller's
    rows of that id and, by the cascade, the chunks of the collection and
    no other chunk.  No listing shows a document of the collection
    afterwards, and the listing under a name that no remaining collection
    bears is empty; under a name that another collection bears, the
    listing is that collection's. *)
Theorem delete_cascades_to_chunks
    (d : database) (user_id collection_id : string) (count : Z) (b' : backend) :
  collections.delete user_id collection_id (Up d) = (Ok count, b') →
  ∃ d', b' = Up d'
    ∧ 0 < count
    ∧ langchain_pg_collection d'
      = filter (λ r, ¬ collections.where_uuid_owner collection_id user_id r)
          (langchain_pg_collection d)
    ∧ langchain_pg_embedding d'
      = filter (λ e, e_collection_id e ≠ collection_id) (langchain_pg_embedding d)
    ∧ (∀ collection_name limit offset,
         ∃ listing,
           documents.list_documents_in_vectorstore collection_name limit offset b'
           = (Ok listing, b')
           ∧ ∀ doc, doc ∈ listing → documents.collection_id doc ≠ collection_id)
    ∧ (∀ collection_name limit offset,
         collection_name ∉ (c_name <$> langchain_pg_collection d') →
         documents.list_documents_in_vectorstore collection_name limit offset b'
         = (Ok [], b')).
Proof.
  rewrite delete_run. case_decide as Hgone; [done|]. intros [= <- <-].
  exists (deleted user_id collection_id d). split; [done|].
  assert (langchain_pg_embedding (deleted user_id collection_id d)
          = filter (λ e, e_collection_id e ≠ collection_id) (langchain_pg_embedding d))
    as Hchunks by (by apply cascade_of_collection).
  split.
  { destruct (filter _ (langchain_pg_collection d)); [done|]. simpl. lia. }
  split; [done|]. split; [done|]. split.
  - intros collection_name limit offset. eexists. split.
    + by rewrite list_documents_run.
    + intros doc Hdoc Heq.
      destruct (listed_document_has_chunk _ collection_name limit offset _ doc
                  (list_documents_run _ _ _ _) Hdoc) as (e & He & Hc).
      rewrite Hchunks in He. apply list_elem_of_filter in He as [Hne _].
      apply Hne. congruence.
  - intros collection_name limit offset Hname.
    by apply list_documents_missing.
Qed.

Lemma delete_cascades_to_chunks_witness :
  ∃ d', (collections.delete "user2" "c2" (Up user2_only)).2 = Up d'
    ∧ 0 < 1
    ∧ langchain_pg_collection d'
      = filter (λ r, ¬ collections.where_uuid_owner "c2" "user2" r)
          (langchain_pg_collection user2_only)
    ∧ langchain_pg_embedding d'
      = filter (λ e, e_collection_id e ≠ "c2") (langchain_pg_embedding user2_only)
    ∧ (∀ collection_name limit offset,
         ∃ listing,
           documents.list_documents_in_vectorstore collection_name limit offset
             (collections.delete "user2" "c2" (Up user2_only)).2
           = (Ok listing, (collections.delete "user2" "c2" (Up user2_only)).2)
           ∧ ∀ doc, doc ∈ listing → documents.collection_id doc ≠ "c2")
    ∧ (∀ collection_name limit offset,
         collection_name ∉ (c_name <$> langchain_pg_collection d') →
         documents.list_documents_in_vectorstore collection_name limit offset
           (collections.delete "user2" "c2" (Up user2_only)).2
         = (Ok [], (collections.delete "user2" "c2" (Up user2_only)).2)).
Proof.
  apply (delete_cascades_to_chunks user2_only "user2" "c2" 1).
  reflexivity.
Defined.

(** C3, as stated, fails: [user1] and [user2] each own a collection named
    [docs]; after [user2] deleted its own, the listing of [docs] is not
    empty: it shows the document of the collection of [user1]. *)
Lemma listing_of_a_shared_name_after_delete :
  collections.delete "user2" "c2" (Up two_owners)
  = (Ok 1, Up {| langchain_pg_collection := [user1_docs];
                 langchain_pg_embedding := [chunk "e1" "c1" "f1"] |})
  ∧ documents.list_documents_in_vectorstore "docs" 10 0
      (Up {| langchain_pg_collection := [user1_docs];
             langchain_pg_embedding := [chunk "e1" "c1" "f1"] |})
    = (Ok [documents.listed "c1" (chunk "e1" "c1" "f1")],
       Up {| langchain_pg_collection := [user1_docs];
             langchain_pg_embedding := [chunk "e1" "c1" "f1"] |}).
Proof. split; reflexivity. Qed.

(** After [user2] deleted its collection, which held six chunks, the
    listing under its name is empty. *)
Example listing_after_delete :
  documents.list_documents_in_vectorstore "docs" 10 0
    (collections.delete "user2" "c2" (Up user2_only)).2
  = (Ok [], Up {| langchain_pg_collection := []; langchain_pg_embedding := [] |}).
Proof. reflexivity. Qed.

(** ** Ownership *)

Lemma filter_within {A} (P Q : A → Prop) `{∀ x, Decision (P x)} `{∀ x, Decision (Q x)}
    (l : list A) :
  (∀ x, P x → Q x) → filter P (filter Q l) = filter P l.
Proof.
  intros HPQ. induction l as [|x l IH]; [done|].
  destruct (decide (Q x)) as [HQ|HQ].
  - rewrite (filter_cons_True Q) by done.
    destruct (decide (P x)).
    + rewrite !(filter_cons_True P) by done. by rewrite IH.
    + by rewrite !(filter_cons_False P) by done.
  - rewrite (filter_cons_False Q) by done.
    rewrite (filter_cons_False P); [done|]. intros HP. by apply HQ, HPQ.
Qed.

Lemma foreign_updated user_id collection_id new_name metadata d :
  foreign user_id (Up (updated user_id collection_id new_name metadata d))
  = foreign user_id (Up d).
Proof.
  unfold foreign, updated; simpl.
  induction (langchain_pg_collection d) as [|r l IH]; [done|]. csimpl.
  case_decide as Hhit.
  - destruct Hhit as [_ Hown].
    rewrite !filter_cons_False; [done| |]; intros Hnot; apply Hnot; [done|].
    by apply owned_by_set_clause.
  - destruct (decide (owned_by user_id r)).
    + by rewrite !filter_cons_False by (intros Hnot; by apply Hnot).
    + rewrite !filter_cons_True by done. by rewrite IH.
Qed.

Lemma foreign_deleted user_id collection_id d :
  foreign user_id (Up (deleted user_id collection_id d)) = foreign user_id (Up d).
Proof.
  unfold foreign, deleted; simpl. apply filter_within.
  intros r Hnot [_ Hown]. by apply Hnot.
Qed.

Lemma foreign_created user_id collection_name metadata d :
  foreign user_id
    (Up (insert_collection (created_row user_id collection_name metadata d) d))
  = foreign user_id (Up d).
Proof.
  unfold foreign, insert_collection; simpl. rewrite filter_app.
  rewrite filter_cons_False, filter_nil, app_nil_r; [done|].
  intros Hnot. apply Hnot. apply created_row_owned.
Qed.

(** C1, as the code has it: the registry applies the ownership predicate
    in every statement.  What [list], [get], the lookup by name, [update]
    and [delete] return, and whether [create] raises, is what they return
    on the caller's own rows alone; and [create], [update] and [delete]
    leave the rows of the other owners as they are. *)
Theorem registry_applies_ownership (d : database) (user_id : string) :
  (collections.list user_id (Up d)).1 = (collections.list user_id (Up (own user_id d))).1
  ∧ (∀ collection_id,
       (collections.get user_id collection_id (Up d)).1
       = (collections.get user_id collection_id (Up (own user_id d))).1)
  ∧ (∀ collection_name,
       (collections._get_by_name user_id collection_name (Up d)).1
       = (collections._get_by_name user_id collection_name (Up (own user_id d))).1)
  ∧ (∀ collection_id new_name metadata,
       (collections.update user_id collection_id new_name metadata (Up d)).1
       = (collections.update user_id collection_id new_name metadata
            (Up (own user_id d))).1)
  ∧ (∀ collection_id,
       (collections.delete user_id collection_id (Up d)).1
       = (collections.delete user_id collection_id (Up (own user_id d))).1)
  ∧ (∀ collection_name metadata e,
       (collections.create user_id collection_name metadata (Up d)).1 = Raise e
       ↔ (collections.create user_id collection_name metadata (Up (own user_id d))).1
         = Raise e)
  ∧ (∀ collection_name metadata,
       foreign user_id (collections.create user_id collection_name metadata (Up d)).2
       = foreign user_id (Up d))
  ∧ (∀ collection_id new_name metadata,
       foreign user_id
         (collections.update user_id collection_id new_name metadata (Up d)).2
       = foreign user_id (Up d))
  ∧ (∀ collection_id,
       foreign user_id (collections.delete user_id collection_id (Up d)).2
       = foreign user_id (Up d)).
Proof.
  assert (∀ collection_id,
            filter (collections.where_uuid_owner collection_id user_id)
              (langchain_pg_collection (own user_id d))
            = filter (collections.where_uuid_owner collection_id user_id)
                (langchain_pg_collection d)) as Hid.
  { intros collection_id. apply filter_within. by intros r [_ ?]. }
  assert (∀ collection_name,
            filter (collections.where_name_owner collection_name user_id)
              (langchain_pg_collection (own user_id d))
            = filter (collections.where_name_owner collection_name user_id)
                (langchain_pg_collection d)) as Hname.
  { intros collection_name. apply filter_within. by intros r [_ ?]. }
  repeat split.
  - rewrite !list_run. simpl. by rewrite filter_within.
  - intros collection_id. by rewrite !get_run, Hid.
  - intros collection_name. by rewrite !get_by_name_run, Hname.
  - intros collection_id new_name metadata. rewrite !update_run, Hid.
    rewrite (decide_ext _ _ _ _ (unique_violation_own new_name collection_id user_id
                                   (langchain_pg_collection d))).
    case_decide; [done|]. by destruct (head _).
  - intros collection_id. rewrite !delete_run, Hid. by case_decide.
  - rewrite !create_run, Hname. by destruct (head _).
  - rewrite !create_run, Hname. by destruct (head _).
  - intros collection_name metadata. rewrite create_run.
    destruct (head _); [done|]. apply foreign_created.
  - intros collection_id new_name metadata. rewrite update_run.
    case_decide; [done|]. destruct (head _); apply foreign_updated.
  - intros collection_id. rewrite delete_run. case_decide; apply foreign_deleted.
Qed.

(** C1, as stated, fails for the chunk store: [user1] owns no collection
    and finds none under the id [c2], yet listing the documents of [docs]
    shows the chunks of the collection of [user2], and deleting by file id
    removes them. *)
Lemma chunk_store_ignores_ownership :
  collections.list "user1" (Up user2_only) = (Ok [], Up user2_only)
  ∧ collections.get "user1" "c2" (Up user2_only) = (Ok None, Up user2_only)
  ∧ documents.list_documents_in_vectorstore "docs" 10 0 (Up user2_only)
    = (Ok [documents.listed "c2" (chunk "e1" "c2" "f1");
           documents.listed "c2" (chunk "e4" "c2" "f2")],
       Up user2_only)
  ∧ documents.list_documents_in_vectorstore "docs" 10 0 (Up (own "user1" user2_only))
    = (Ok [], Up (own "user1" user2_only))
  ∧ documents.delete_documents_from_vectorstore "docs" ["f1"] (Up user2_only)
    = (Ok true,
       Up {| langchain_pg_collection := [user2_docs];
             langchain_pg_embedding :=
               [chunk "e5" "c2" "f2"; loose_chunk "e0" "c2"; chunk "e4" "c2" "f2"] |}).
Proof. repeat split; reflexivity. Qed.

(** * Further properties of the registry *)

(** ** Failures of the backend in the registry *)

(** X1: unlike the chunk store, no operation of the registry catches a
    failure of the backend: it reaches the caller as it was raised. *)
Theorem registry_propagates_backend_failures
    (user_id collection_id collection_name : string) (new_name : option string)
    (metadata : option Metadata) (e : exn) :
  collections.list user_id (Down e) = (Raise e, Down e)
  ∧ collections.get user_id collection_id (Down e) = (Raise e, Down e)
  ∧ collections._get_by_name user_id collection_name (Down e) = (Raise e, Down e)
  ∧ collections.create user_id collection_name metadata (Down e) = (Raise e, Down e)
  ∧ collections.update user_id collection_id new_name metadata (Down e) = (Raise e, Down e)
  ∧ collections.delete user_id collection_id (Down e) = (Raise e, Down e).
Proof. repeat split; reflexivity. Qed.

(** ** Listing collections *)

#[global] Instance order_by_name_total : Total collections.order_by_name.
Proof. intros x y. apply (total String.le). Qed.

#[global] Instance order_by_name_trans : Transitive collections.order_by_name.
Proof. intros x y z. unfold collections.order_by_name. apply transitivity. Qed.

Lemma owned_details user_id r :
  owned_by user_id r →
  Some (collections.metadata (collections.details r)) ->> "owner_id" = Some user_id.
Proof.
  intros Hown. destruct (owned_by_is_Some _ _ Hown) as [m Hm].
  unfold owned_by in Hown. unfold collections.details, collections._parse_metadata.
  cbn [collections.metadata]. by rewrite Hm in Hown |- *.
Qed.

(** X2: [list] returns the caller's collections, all of them and no
    other, by ascending name. *)
Theorem list_is_own_and_sorted (d : database) (user_id : string) :
  ∃ listing,
    collections.list user_id (Up d) = (Ok listing, Up d)
    ∧ listing ≡ₚ collections.details
                   <$> filter (owned_by user_id) (langchain_pg_collection d)
    ∧ StronglySorted String.le (collections.name <$> listing)
    ∧ (∀ c, c ∈ listing →
            Some (collections.metadata c) ->> "owner_id" = Some user_id).
Proof.
  eexists. split; [apply list_run|]. split; [|split].
  - by rewrite merge_sort_Permutation.
  - rewrite <- list_fmap_compose.
    apply (StronglySorted_fmap _ collections.order_by_name); [done|].
    apply (StronglySorted_merge_sort _).
  - intros c (r & -> & Hr)%list_elem_of_fmap.
    rewrite merge_sort_Permutation in Hr.
    apply list_elem_of_filter in Hr as [Hown _]. by apply owned_details.
Qed.

(** ** Getting a collection *)

(** X3: with [uuid] a key, [get] returns the caller's own collection as it
    is stored, and changes nothing. *)
Theorem get_returns_own (d : database) (r : collection_row) (user_id : string) :
  NoDup (c_uuid <$> langchain_pg_collection d) →
  r ∈ langchain_pg_collection d →
  owned_by user_id r →
  collections.get user_id (c_uuid r) (Up d) = (Ok (Some (collections.details r)), Up d).
Proof.
  intros Hkey Hr Hown. rewrite get_run.
  by rewrite (filter_key_unique c_uuid _ _ r); [|done|done|done|by intros x []].
Qed.

Lemma get_returns_own_witness :
  collections.get "user2" (c_uuid user2_docs) (Up two_owners)
  = (Ok (Some (collections.details user2_docs)), Up two_owners).
Proof.
  apply (get_returns_own two_owners user2_docs "user2").
  - decided.
  - decided.
  - reflexivity.
Defined.

(** ** Operations that fail *)

Lemma filter_all {A} (P : A → Prop) `{∀ x, Decision (P x)} (l : list A) :
  (∀ x, x ∈ l → P x) → filter P l = l.
Proof.
  induction l as [|x l IH]; intros Hl; [done|].
  rewrite filter_cons_True by (apply Hl; left).
  f_equal. apply IH. intros y Hy. apply Hl. by right.
Qed.

Lemma updated_no_hit user_id collection_id new_name metadata d :
  (∀ r, r ∈ langchain_pg_collection d →
        ¬ collections.where_uuid_owner collection_id user_id r) →
  updated user_id collection_id new_name metadata d = d.
Proof.
  intros Hno. destruct d as [rows chunks]. unfold updated; simpl in *. f_equal.
  rewrite <- (list_fmap_id rows) at 2.
  apply Forall_fmap_ext, Forall_forall. intros r Hr.
  by rewrite decide_False by by apply Hno.
Qed.

Lemma deleted_no_hit user_id collection_id d :
  (∀ r, r ∈ langchain_pg_collection d →
        ¬ collections.where_uuid_owner collection_id user_id r) →
  deleted user_id collection_id d = d.
Proof.
  intros Hno. destruct d as [rows chunks]. unfold deleted; simpl in *.
  rewrite (filter_none (collections.where_uuid_owner collection_id user_id)) by done.
  rewrite filter_all by done.
  f_equal. unfold on_delete_cascade. apply filter_all.
  intros e _. simpl. by intros ?%elem_of_nil.
Qed.

(** X4: [update] and [delete] raise the 404 error exactly when no row
    bears the id under the caller's ownership, and [create] the 409 error
    exactly when the caller owns a collection of the name; an operation
    that raises leaves the tables as they were. *)
Theorem failed_operations_change_nothing
    (d : database) (user_id collection_id collection_name : string)
    (new_name : option string) (metadata : option Metadata) :
  ((∀ r, r ∈ langchain_pg_collection d →
         ¬ collections.where_uuid_owner collection_id user_id r)
   ↔ collections.update user_id collection_id new_name metadata (Up d)
     = (Raise (not_found collection_id), Up d))
  ∧ ((∀ r, r ∈ langchain_pg_collection d →
           ¬ collections.where_uuid_owner collection_id user_id r)
     ↔ collections.delete user_id collection_id (Up d)
       = (Raise (not_found collection_id), Up d))
  ∧ ((∃ r, r ∈ langchain_pg_collection d
           ∧ collections.where_name_owner collection_name user_id r)
     ↔ collections.create user_id collection_name metadata (Up d)
       = (Raise (conflict collection_name), Up d)).
Proof.
  split; [|split].
  - rewrite update_run. split.
    + intros Hno. rewrite decide_False.
      * rewrite updated_no_hit by done. by rewrite filter_none by done.
      * intros (r & Hr & Hhit)%unique_violation_hit. by eapply Hno.
    + case_decide; [done|].
      destruct (head _) as [r|] eqn:Hhead; [done|]. intros _.
      by apply (head_filter_None _ (langchain_pg_collection d)).
  - rewrite delete_run. split.
    + intros Hno. rewrite deleted_no_hit by done.
      rewrite filter_none by done. by rewrite decide_True.
    + case_decide as Hnil; [|done]. intros _ r Hr Hhit.
      by eapply filter_nil_not_elem_of.
  - rewrite name_taken_head, create_run.
    destruct (head _) as [r|]; split; try done; by intros [? ?].
Qed.

(** ** What an update keeps *)

Lemma set_clause_owner user_id collection_id new_name metadata r :
  collections.where_uuid_owner collection_id user_id r →
  c_cmetadata (collections.set_clause new_name
                 ((λ m, <["owner_id" := VStr user_id]> m) <$> metadata) r)
    ->> "owner_id"
  = c_cmetadata r ->> "owner_id".
Proof.
  intros [_ Hown]. rewrite Hown.
  by apply (owned_by_set_clause user_id new_name metadata r).
Qed.

Lemma updated_uuids user_id collection_id new_name metadata d :
  c_uuid <$> langchain_pg_collection (updated user_id collection_id new_name metadata d)
  = c_uuid <$> langchain_pg_collection d.
Proof.
  unfold updated; simpl. rewrite <- list_fmap_compose.
  apply Forall_fmap_ext, Forall_forall. intros r _. simpl. by case_decide.
Qed.

Lemma updated_owners user_id collection_id new_name metadata d :
  (λ r, c_cmetadata r ->> "owner_id")
    <$> langchain_pg_collection (updated user_id collection_id new_name metadata d)
  = (λ r, c_cmetadata r ->> "owner_id") <$> langchain_pg_collection d.
Proof.
  unfold updated; simpl. rewrite <- list_fmap_compose.
  apply Forall_fmap_ext, Forall_forall. intros r _. simpl.
  case_decide; [|done]. by eapply set_clause_owner.
Qed.

(** X5: whether it succeeds or not, and whatever metadata it is given,
    [update] changes no collection's id and no collection's owner, in
    particular adds and removes no row, and leaves the chunks alone. *)
Theorem update_keeps_ids_and_owners
    (d : database) (user_id collection_id : string)
    (new_name : option string) (metadata : option Metadata) :
  ∃ d',
    (collections.update user_id collection_id new_name metadata (Up d)).2 = Up d'
    ∧ c_uuid <$> langchain_pg_collection d' = c_uuid <$> langchain_pg_collection d
    ∧ (λ r, c_cmetadata r ->> "owner_id") <$> langchain_pg_collection d'
      = (λ r, c_cmetadata r ->> "owner_id") <$> langchain_pg_collection d
    ∧ langchain_pg_embedding d' = langchain_pg_embedding d.
Proof.
  rewrite update_run. case_decide; [by exists d|].
  exists (updated user_id collection_id new_name metadata d).
  split; [by destruct (head _)|].
  split; [apply updated_uuids|]. split; [apply updated_owners|done].
Qed.

Lemma updated_elem user_id collection_id new_name metadata d r :
  r ∈ langchain_pg_collection d →
  collections.where_uuid_owner collection_id user_id r →
  collections.set_clause new_name
    ((λ m, <["owner_id" := VStr user_id]> m) <$> metadata) r
  ∈ langchain_pg_collection (updated user_id collection_id new_name metadata d).
Proof.
  intros Hr Hhit. unfold updated; simpl.
  apply (list_elem_of_fmap_2' _ _ r); [done|]. by rewrite decide_True.
Qed.

(** X6: with [uuid] a key, whenever [update] returns a collection, [get]
    under the same id returns it afterwards. *)
Theorem update_then_get
    (d : database) (user_id collection_id : string)
    (new_name : option string) (metadata : option Metadata)
    (updated_ : collections.CollectionDetails) (b' : backend) :
  NoDup (c_uuid <$> langchain_pg_collection d) →
  collections.update user_id collection_id new_name metadata (Up d) = (Ok updated_, b') →
  collections.get user_id collection_id b' = (Ok (Some updated_), b').
Proof.
  intros Hkey. rewrite update_run. case_decide; [done|].
  destruct (head _) as [r|] eqn:Hhead; [|done]. intros [= <- <-].
  apply head_filter_Some in Hhead as [Hr [Hid Hown]].
  rewrite get_run.
  rewrite (filter_key_unique c_uuid _ _
             (collections.set_clause new_name
                ((λ m, <["owner_id" := VStr user_id]> m) <$> metadata) r)); [done| | | |].
  - by rewrite updated_uuids.
  - by apply updated_elem.
  - split; [done|]. by apply owned_by_set_clause.
  - intros x [Hx _]. simpl. congruence.
Qed.

Lemma update_then_get_witness :
  collections.get "user1" "c1"
    (collections.update "user1" "c1" (Some "papers") None (Up two_owners)).2
  = (Ok (Some {| collections.uuid := "c1"; collections.name := "papers";
                 collections.metadata := {["owner_id" := VStr "user1"]} |}),
     (collections.update "user1" "c1" (Some "papers") None (Up two_owners)).2).
Proof.
  apply (update_then_get two_owners "user1" "c1" (Some "papers") None).
  - decided.
  - reflexivity.
Defined.

(** ** After a deletion *)

Lemma deleted_no_row user_id collection_id d r :
  r ∈ langchain_pg_collection (deleted user_id collection_id d) →
  ¬ collections.where_uuid_owner collection_id user_id r.
Proof. unfold deleted; simpl. by intros [? _]%list_elem_of_filter. Qed.

(** X7: after [delete], whether it found the collection or not, the
    caller finds no collection under the id, and a second [delete] raises
    the 404 error and changes nothing. *)
Theorem delete_then_gone (d : database) (user_id collection_id : string) :
  ∃ d',
    (collections.delete user_id collection_id (Up d)).2 = Up d'
    ∧ collections.get user_id collection_id (Up d') = (Ok None, Up d')
    ∧ collections.delete user_id collection_id (Up d')
      = (Raise (not_found collection_id), Up d').
Proof.
  exists (deleted user_id collection_id d).
  split; [rewrite delete_run; by case_decide|].
  assert (filter (collections.where_uuid_owner collection_id user_id)
            (langchain_pg_collection (deleted user_id collection_id d)) = []) as Hnone.
  { apply filter_none. intros r. apply deleted_no_row. }
  split.
  - by rewrite get_run, Hnone.
  - rewrite delete_run, Hnone. rewrite decide_True by done.
    rewrite deleted_no_hit; [done|]. intros r. apply deleted_no_row.
Qed.

Lemma filter_ext_elem {A} (P Q : A → Prop) `{∀ x, Decision (P x)} `{∀ x, Decision (Q x)}
    (l : list A) :
  (∀ x, x ∈ l → P x ↔ Q x) → filter P l = filter Q l.
Proof.
  induction l as [|x l IH]; intros Hl; [done|].
  assert (filter P l = filter Q l) as Htl.
  { apply IH. intros y Hy. apply Hl. by right. }
  destruct (decide (P x)) as [HP|HP].
  - rewrite (filter_cons_True P), (filter_cons_True Q), Htl; [done| |done].
    apply Hl; [left|done].
  - rewrite (filter_cons_False P), (filter_cons_False Q), Htl; [done| |done].
    intros HQ. apply HP. apply Hl; [left|done].
Qed.

(** X8: with [uuid] a key, deleting the caller's own collection counts one
    row; what is left is every other collection and every chunk of another
    collection, in their order. *)
Theorem delete_removes_one_collection
    (d : database) (r : collection_row) (user_id : string) :
  NoDup (c_uuid <$> langchain_pg_collection d) →
  r ∈ langchain_pg_collection d →
  owned_by user_id r →
  collections.delete user_id (c_uuid r) (Up d)
  = (Ok 1,
     Up {| langchain_pg_collection :=
             filter (λ x, x ≠ r) (langchain_pg_collection d);
           langchain_pg_embedding :=
             filter (λ e, e_collection_id e ≠ c_uuid r) (langchain_pg_embedding d) |}).
Proof.
  intros Hkey Hr Hown. rewrite delete_run. unfold deleted.
  rewrite (filter_key_unique c_uuid _ _ r); [|done|done|done|by intros x []].
  rewrite decide_False by done. simpl. do 3 f_equal.
  - apply filter_ext_elem. intros x Hx. split.
    + intros Hnot ->. by apply Hnot.
    + intros Hne [Hid _]. apply Hne. by eapply (key_identifies_row c_uuid).
  - unfold on_delete_cascade. apply list_filter_iff. intros e. simpl.
    by rewrite list_elem_of_singleton.
Qed.

Lemma delete_removes_one_collection_witness :
  collections.delete "user2" (c_uuid user2_docs) (Up two_owners)
  = (Ok 1,
     Up {| langchain_pg_collection :=
             filter (λ x, x ≠ user2_docs) (langchain_pg_collection two_owners);
           langchain_pg_embedding :=
             filter (λ e, e_collection_id e ≠ c_uuid user2_docs)
               (langchain_pg_embedding two_owners) |}).
Proof.
  apply (delete_removes_one_collection two_owners user2_docs "user2").
  - decided.
  - decided.
  - reflexivity.
Defined.

(** After [user2] deleted its collection, that of [user1] and its chunk
    are what is left. *)
Example delete_leaves_the_rest :
  (collections.delete "user2" "c2" (Up two_owners)).2
  = Up {| langchain_pg_collection := [user1_docs];
          langchain_pg_embedding := [chunk "e1" "c1" "f1"] |}.
Proof. reflexivity. Qed.

(** * Further properties of the chunk store *)

(** ** The listing never fails *)

Lemma length_page {A} (limit offset : Z) (l : list A) :
  0 ≤ limit →
  Z.of_nat (length (take (Z.to_nat limit) (drop (Z.to_nat offset) l))) ≤ limit.
Proof. intros Hl. rewrite length_take. lia. Qed.

(** X9: on every backend and for every name, limit and offset the listing
    returns: it raises nothing, changes nothing, and holds at most [limit]
    documents, none when the limit is not positive or no collection bears
    the name. *)
Theorem listing_returns_at_most_limit
    (b : backend) (collection_name : string) (limit offset : Z) :
  ∃ listing,
    documents.list_documents_in_vectorstore collection_name limit offset b
    = (Ok listing, b)
    ∧ Z.of_nat (length listing) ≤ Z.max 0 limit
    ∧ (∀ d, b = Up d → collection_name ∉ (c_name <$> langchain_pg_collection d) →
            listing = []).
Proof.
  destruct b as [d|e].
  - eexists. split; [apply list_documents_run|]. split.
    + destruct (head _) as [r|]; [|simpl; lia].
      unfold documents.list_query. repeat case_decide; try (simpl; lia).
      rewrite length_fmap. etrans; [apply length_page; lia|lia].
    + intros d' [= <-] Hname.
      destruct (head _) as [r|] eqn:Hhead; [|done].
      apply head_filter_Some in Hhead as [Hr <-].
      destruct Hname. by apply list_elem_of_fmap_2.
  - exists []. split; [apply list_documents_down|]. split; [simpl; lia|done].
Qed.

(** ** Pages *)

Lemma page_app {A} (l1 l2 o : Z) (l : list A) :
  0 ≤ l1 → 0 ≤ l2 → 0 ≤ o →
  take (Z.to_nat (l1 + l2)) (drop (Z.to_nat o) l)
  = (take (Z.to_nat l1) (drop (Z.to_nat o) l)
     ++ take (Z.to_nat l2) (drop (Z.to_nat (o + l1)) l))%list.
Proof.
  intros H1 H2 Ho. rewrite !Z2Nat.inj_add by done.
  by rewrite <- drop_drop, take_take_drop.
Qed.

(** X10: consecutive pages tile the listing: the page of [l1] documents
    at [offset] followed by the page of [l2] documents at [offset + l1] is
    the page of [l1 + l2] documents at [offset]. *)
Theorem listing_pages_tile
    (d : database) (collection_name : string) (l1 l2 offset : Z) :
  0 ≤ l1 → 0 ≤ l2 → 0 ≤ offset → l1 + l2 < 2 ^ 63 → offset + l1 < 2 ^ 63 →
  ∃ page1 page2,
    documents.list_documents_in_vectorstore collection_name l1 offset (Up d)
    = (Ok page1, Up d)
    ∧ documents.list_documents_in_vectorstore collection_name l2 (offset + l1) (Up d)
      = (Ok page2, Up d)
    ∧ documents.list_documents_in_vectorstore collection_name (l1 + l2) offset (Up d)
      = (Ok (page1 ++ page2)%list, Up d).
Proof.
  intros H1 H2 Ho Hsum Hnext. rewrite !list_documents_run.
  destruct (head _) as [r|]; [|by exists [], []].
  rewrite !list_query_in_range by lia.
  eexists _, _. split; [done|]. split; [done|].
  by rewrite page_app, fmap_app by done.
Qed.

Lemma listing_pages_tile_witness :
  ∃ page1 page2,
    documents.list_documents_in_vectorstore "docs" 1 0 (Up user2_only)
    = (Ok page1, Up user2_only)
    ∧ documents.list_documents_in_vectorstore "docs" 1 (0 + 1) (Up user2_only)
      = (Ok page2, Up user2_only)
    ∧ documents.list_documents_in_vectorstore "docs" (1 + 1) 0 (Up user2_only)
      = (Ok (page1 ++ page2)%list, Up user2_only).
Proof. apply (listing_pages_tile user2_only "docs" 1 1 0); lia. Defined.

(** ** The file ids of a listing *)

Lemma listed_file_id_listed collection_uuid e :
  listed_file_id (documents.listed collection_uuid e) = documents.file_id e.
Proof.
  unfold listed_file_id, documents.listed, documents.file_id, arrow_text.
  simpl. by destruct (e_cmetadata e).
Qed.

Lemma sublist_StronglySorted {A} (R : relation A) (l k : list A) :
  l `sublist_of` k → StronglySorted R k → StronglySorted R l.
Proof.
  induction 1 as [|x l k Hlk IH|x l k Hlk IH]; intros Hk; [done| |].
  - apply StronglySorted_inv in Hk as [Hk Hx]. constructor; [by apply IH|].
    rewrite Forall_forall in Hx |- *. intros y Hy. apply Hx.
    by eapply sublist_subseteq.
  - apply StronglySorted_inv in Hk as [Hk _]. by apply IH.
Qed.

Lemma page_sublist {A} (limit offset : nat) (l : list A) :
  take limit (drop offset l) `sublist_of` l.
Proof. etrans; [apply sublist_take|apply sublist_drop]. Qed.

Lemma ascending_files (l : list embedding_row) :
  Forall (λ e, is_Some (documents.file_id e)) l →
  StronglySorted
    (λ e1 e2, ∃ f1 f2, documents.file_id e1 = Some f1 ∧ documents.file_id e2 = Some f2
                       ∧ strict String.le f1 f2) l →
  documents.file_id <$> l = Some <$> omap documents.file_id l
  ∧ StronglySorted (strict String.le) (omap documents.file_id l).
Proof.
  intros Hsome Hsorted.
  induction Hsorted as [|e l Hl IH He]; [by split; [|constructor]|].
  apply Forall_cons in Hsome as [[f Hf] Hsome].
  destruct (IH Hsome) as [IH1 IH2]. csimpl. rewrite Hf. simpl. split.
  - by rewrite IH1.
  - constructor; [done|]. apply Forall_forall.
    intros f' (e' & He' & Hf')%list_elem_of_omap.
    rewrite Forall_forall in He. destruct (He e' He') as (f1 & f2 & H1 & H2 & Hlt).
    congruence.
Qed.

(** X11: with chunk ids unique, every listed document shows a file id in
    its metadata, and along the listing these file ids ascend strictly: no
    two listed documents belong to one file. *)
Theorem listing_shows_ascending_file_ids
    (d : database) (collection_name : string) (limit offset : Z)
    (listing : list documents.ListedDocument) :
  NoDup (e_id <$> langchain_pg_embedding d) →
  documents.list_documents_in_vectorstore collection_name limit offset (Up d)
  = (Ok listing, Up d) →
  ∃ files,
    listed_file_id <$> listing = Some <$> files
    ∧ StronglySorted (strict String.le) files.
Proof.
  intros Hkey. rewrite list_documents_run. intros [= <-].
  destruct (head _) as [r|]; [|exists []; split; [done|constructor]].
  unfold documents.list_query.
  repeat case_decide; try (exists []; split; [done|constructor]).
  set (page := take _ (drop _ _)).
  assert (page `sublist_of` documents.unique_file_chunks_query (c_uuid r) d) as Hsub
    by apply page_sublist.
  destruct (ascending_files page) as [Hfiles Hsorted].
  - apply Forall_forall. intros e He.
    apply (sublist_subseteq _ _ Hsub) in He.
    destruct (query_file_chunks d (c_uuid r) Hkey e He) as (f & _ & _ & Hf).
    by eexists.
  - eapply sublist_StronglySorted; [exact Hsub|]. by apply query_strictly_sorted.
  - exists (omap documents.file_id page). split; [|done].
    rewrite <- list_fmap_compose, <- Hfiles.
    apply list_fmap_ext. intros i e _. apply listed_file_id_listed.
Qed.

Lemma listing_shows_ascending_file_ids_witness :
  ∃ files,
    listed_file_id <$> [documents.listed "c2" (chunk "e1" "c2" "f1");
                        documents.listed "c2" (chunk "e4" "c2" "f2")]
    = Some <$> files
    ∧ StronglySorted (strict String.le) files.
Proof.
  apply (listing_shows_ascending_file_ids user2_only "docs" 10 0).
  - decided.
  - reflexivity.
Defined.

(** ** Fetching one document *)

Section fetching.

Variable UUID : string → option string.

Lemma get_document_run document_id d :
  documents.get_document_from_vectorstore UUID document_id (Up d)
  = (Ok (doc_uuid ← UUID document_id;
         r ← head (filter (λ e, e_uuid e = doc_uuid) (langchain_pg_embedding d));
         Some {| documents.fetched_id := e_uuid r;
                 documents.fetched_content := e_document r;
                 documents.fetched_metadata := e_cmetadata r |}),
     Up d).
Proof.
  unfold documents.get_document_from_vectorstore.
  destruct (UUID document_id) as [doc_uuid|]; [|done]. simpl.
  unfold try_except. rewrite bind_run, conn_fetch_up.
  by destruct (head _).
Qed.

(** X12: fetching a document raises nothing and changes nothing, whatever
    the backend; an id that is no UUID, or one that no chunk bears, gives
    no document. *)
Theorem get_document_returns (b : backend) (document_id : string) :
  ∃ found,
    documents.get_document_from_vectorstore UUID document_id b = (Ok found, b)
    ∧ (UUID document_id = None → found = None)
    ∧ (∀ d doc_uuid,
         b = Up d → UUID document_id = Some doc_uuid →
         doc_uuid ∉ (e_uuid <$> langchain_pg_embedding d) → found = None).
Proof.
  destruct b as [d|e].
  - eexists. split; [apply get_document_run|]. split.
    + by intros ->.
    + intros d' doc_uuid [= <-] -> Hmiss. simpl.
      rewrite filter_none; [done|]. intros x Hx Heq. apply Hmiss.
      rewrite <- Heq. by apply list_elem_of_fmap_2.
  - exists None. split; [apply get_document_down|done].
Qed.

(** X13: with [uuid] a key of the chunks, fetching by the id of a stored
    chunk gives its id, its text and its metadata as stored. *)
Theorem get_document_finds_chunk (d : database) (e : embedding_row) (document_id : string) :
  NoDup (e_uuid <$> langchain_pg_embedding d) →
  e ∈ langchain_pg_embedding d →
  UUID document_id = Some (e_uuid e) →
  documents.get_document_from_vectorstore UUID document_id (Up d)
  = (Ok (Some {| documents.fetched_id := e_uuid e;
                 documents.fetched_content := e_document e;
                 documents.fetched_metadata := e_cmetadata e |}),
     Up d).
Proof.
  intros Hkey He Hid. rewrite get_document_run, Hid. simpl.
  by rewrite (filter_key_unique e_uuid _ _ e).
Qed.

End fetching.

Lemma get_document_finds_chunk_witness :
  documents.get_document_from_vectorstore Some "e4" (Up user2_only)
  = (Ok (Some {| documents.fetched_id := e_uuid (chunk "e4" "c2" "f2");
                 documents.fetched_content := e_document (chunk "e4" "c2" "f2");
                 documents.fetched_metadata := e_cmetadata (chunk "e4" "c2" "f2") |}),
     Up user2_only).
Proof.
  apply (get_document_finds_chunk Some user2_only (chunk "e4" "c2" "f2") "e4").
  - decided.
  - decided.
  - reflexivity.
Defined.

(** ** Deleting the chunks of files *)

Lemma file_ids_str (file_ids : list string) :
  (λ fid, py_str (VStr fid)) <$> file_ids = file_ids.
Proof. apply list_fmap_id. Qed.

Lemma delete_documents_run collection_name fid file_ids d :
  documents.delete_documents_from_vectorstore collection_name (fid :: file_ids) (Up d)
  = match head (filter (λ r, c_name r = collection_name) (langchain_pg_collection d)) with
    | Some r => (Ok true, Up (files_deleted (c_uuid r) (fid :: file_ids) d))
    | None => (Ok false, Up d)
    end.
Proof.
  unfold documents.delete_documents_from_vectorstore, try_except.
  rewrite decide_False by done.
  rewrite bind_run, conn_fetch_up. unfold documents.select_collection_by_name.
  destruct (head _) as [r|]; [|done].
  rewrite bind_run. unfold conn_execute, documents.delete_by_file_ids.
  by rewrite file_ids_str.
Qed.

Lemma where_no_file_ids collection_uuid e :
  ¬ documents.where_collection_file_ids collection_uuid [] e.
Proof.
  unfold documents.where_collection_file_ids. intros [_ Hf].
  destruct (documents.file_id e); [by apply elem_of_nil in Hf|done].
Qed.

(** X14: deleting by file ids raises nothing and reports success exactly
    when the list is empty or a collection bears the name.  It leaves the
    collections alone and keeps the order of the chunks; a chunk is gone
    only if it is a chunk of the named collection with a file id of the
    list, and after a success every such chunk is gone. *)
Theorem delete_documents_removes_exactly
    (d : database) (collection_name : string) (file_ids : list string) :
  ∃ ok d',
    documents.delete_documents_from_vectorstore collection_name file_ids (Up d)
    = (Ok ok, Up d')
    ∧ (ok = true ↔ file_ids = []
                   ∨ collection_name ∈ (c_name <$> langchain_pg_collection d))
    ∧ langchain_pg_collection d' = langchain_pg_collection d
    ∧ langchain_pg_embedding d' `sublist_of` langchain_pg_embedding d
    ∧ (∀ e, e ∈ langchain_pg_embedding d → e ∉ langchain_pg_embedding d' →
            ∃ r, documents.select_collection_by_name collection_name d = Ok (Some r)
                 ∧ documents.where_collection_file_ids (c_uuid r) file_ids e)
    ∧ (∀ e r, e ∈ langchain_pg_embedding d' →
              documents.select_collection_by_name collection_name d = Ok (Some r) →
              ¬ documents.where_collection_file_ids (c_uuid r) file_ids e).
Proof.
  destruct file_ids as [|fid file_ids].
  { exists true, d. split; [done|]. split; [by split; [left|]|].
    split; [done|]. split; [done|]. split; [done|].
    intros e r _ _. apply where_no_file_ids. }
  rewrite delete_documents_run. unfold documents.select_collection_by_name.
  destruct (head _) as [r|] eqn:Hhead.
  - eexists _, _. split; [done|].
    apply head_filter_Some in Hhead as [Hr Hname].
    split; [split; [intros _; right|done]|].
    { rewrite <- Hname. by apply list_elem_of_fmap_2. }
    split; [done|]. split; [apply sublist_filter|]. split.
    + intros e He Hgone. exists r. split; [done|].
      destruct (decide (documents.where_collection_file_ids (c_uuid r)
                          (fid :: file_ids) e)) as [|Hnot]; [done|].
      destruct Hgone. by apply list_elem_of_filter.
    + intros e r' [Hnot _]%list_elem_of_filter [= <-]. done.
  - eexists _, _. split; [done|].
    split; [split; [done|]|].
    { intros [?|(r & Hname & Hr)%list_elem_of_fmap]; [done|].
      exfalso. by eapply (proj1 (head_filter_None _ _) Hhead r). }
    split; [done|]. split; [done|]. split; [done|]. by intros e r _ [=].
Qed.

(** X15: deleting by file ids a second time returns what the first time
    returned and changes nothing more. *)
Theorem delete_documents_twice
    (b : backend) (collection_name : string) (file_ids : list string) :
  documents.delete_documents_from_vectorstore collection_name file_ids
    (documents.delete_documents_from_vectorstore collection_name file_ids b).2
  = documents.delete_documents_from_vectorstore collection_name file_ids b.
Proof.
  destruct b as [d|e].
  - destruct file_ids as [|fid file_ids]; [done|].
    rewrite delete_documents_run.
    destruct (head _) as [r|] eqn:Hhead; simpl.
    + rewrite delete_documents_run. simpl. rewrite Hhead.
      unfold files_deleted; simpl. do 3 f_equal.
      apply filter_all. by intros e [? _]%list_elem_of_filter.
    + by rewrite delete_documents_run, Hhead.
  - destruct file_ids as [|fid file_ids]; [done|].
    rewrite delete_documents_down. simpl. apply delete_documents_down.
Qed.

(** ** The listing after files were deleted *)

Lemma files_deleted_keyed collection_uuid file_ids d :
  NoDup (e_id <$> langchain_pg_embedding d) →
  NoDup (e_id <$> langchain_pg_embedding (files_deleted collection_uuid file_ids d)).
Proof.
  intros Hkey. eapply sublist_NoDup; [exact Hkey|].
  unfold files_deleted; simpl. apply fmap_sublist, sublist_filter.
Qed.

Lemma file_chunk_files_deleted collection_uuid file_ids d f e :
  file_chunk_of (files_deleted collection_uuid file_ids d) collection_uuid f e
  ↔ file_chunk_of d collection_uuid f e ∧ f ∉ file_ids.
Proof.
  unfold file_chunk_of, files_deleted; simpl. rewrite list_elem_of_filter.
  unfold documents.where_collection_file_ids. split.
  - intros ((Hnot & He) & Hc & Hf). rewrite Hf in Hnot. split; [done|].
    intros Hin. by apply Hnot.
  - intros ((He & Hc & Hf) & Hout). split; [|done]. split; [|done].
    rewrite Hf. by intros [_ ?].
Qed.

(** A representative stays one in tables that hold the same chunks of its
    file. *)
Lemma representative_transfer d1 d2 collection_uuid e f :
  NoDup (e_id <$> langchain_pg_embedding d1) →
  NoDup (e_id <$> langchain_pg_embedding d2) →
  (∀ x, file_chunk_of d1 collection_uuid f x ↔ file_chunk_of d2 collection_uuid f x) →
  e ∈ documents.unique_file_chunks_query collection_uuid d1 →
  documents.file_id e = Some f →
  e ∈ documents.unique_file_chunks_query collection_uuid d2.
Proof.
  intros Hkey1 Hkey2 Hsame He Hf.
  assert (file_chunk_of d1 collection_uuid f e) as Hfc1.
  { destruct (query_file_chunks d1 collection_uuid Hkey1 e He) as (f' & Hfc).
    assert (f' = f) as -> by (destruct Hfc as (_ & _ & ?); congruence). done. }
  pose proof (proj1 (Hsame e) Hfc1) as Hfc2.
  destruct (query_complete d2 collection_uuid Hkey2 e f Hfc2) as (e0 & He0 & Hf0).
  assert (file_chunk_of d2 collection_uuid f e0) as Hfc0.
  { destruct (query_file_chunks d2 collection_uuid Hkey2 e0 He0) as (f' & Hfc).
    assert (f' = f) as -> by (destruct Hfc as (_ & _ & ?); congruence). done. }
  assert (e = e0) as ->; [|done].
  eapply (key_identifies_row e_id); [exact Hkey2|apply Hfc2|apply Hfc0|].
  apply (anti_symm String.le).
  - eapply (query_lowest_id d1); [done|done|done|]. by apply Hsame.
  - by eapply (query_lowest_id d2).
Qed.

Lemma strictly_ascending_NoDup (l : list embedding_row) :
  StronglySorted
    (λ e1 e2, ∃ f1 f2, documents.file_id e1 = Some f1 ∧ documents.file_id e2 = Some f2
                       ∧ strict String.le f1 f2) l →
  NoDup l.
Proof.
  induction 1 as [|e l Hl IH He]; constructor; [|done].
  intros Hin. rewrite Forall_forall in He.
  destruct (He e Hin) as (f1 & f2 & H1 & H2 & Hlt).
  apply (strict_ne (R := String.le) f1 f2); [done|congruence].
Qed.

Lemma query_files_deleted collection_uuid file_ids d :
  NoDup (e_id <$> langchain_pg_embedding d) →
  documents.unique_file_chunks_query collection_uuid
    (files_deleted collection_uuid file_ids d)
  = filter (λ e, other_file file_ids (documents.file_id e))
      (documents.unique_file_chunks_query collection_uuid d).
Proof.
  intros Hkey.
  pose proof (files_deleted_keyed collection_uuid file_ids d Hkey) as Hkey'.
  pose proof (query_strictly_sorted d collection_uuid Hkey) as Hsorted.
  pose proof (query_strictly_sorted _ collection_uuid Hkey') as Hsorted'.
  eapply sublist_StronglySorted in Hsorted;
    [|apply (sublist_filter (λ e, other_file file_ids (documents.file_id e)))].
  eapply StronglySorted_unique_strong; [|exact Hsorted'|exact Hsorted|].
  - intros e1 e2 _ _ (f1 & f2 & H1 & H2 & Hlt) (f2' & f1' & H2' & H1' & Hgt).
    exfalso. assert (f1' = f1) as -> by congruence.
    assert (f2' = f2) as -> by congruence.
    by eapply (strict_anti_symm (R := strict String.le)).
  - apply NoDup_Permutation; [by eapply strictly_ascending_NoDup..|].
    intros e. rewrite list_elem_of_filter. split.
    + intros He.
      destruct (query_file_chunks _ collection_uuid Hkey' e He) as (f & Hfc).
      pose proof Hfc as (_ & _ & Hf).
      apply file_chunk_files_deleted in Hfc as [Hfc Hout].
      split; [by rewrite Hf|].
      eapply (representative_transfer _ d); [exact Hkey'|exact Hkey| |exact He|exact Hf].
      intros x. rewrite file_chunk_files_deleted. split; [by intros [? _]|].
      intros ?. by split.
    + intros [Hother He].
      destruct (query_file_chunks _ collection_uuid Hkey e He) as (f & Hfc).
      pose proof Hfc as (_ & _ & Hf). rewrite Hf in Hother. simpl in Hother.
      eapply (representative_transfer d); [exact Hkey|exact Hkey'| |exact He|exact Hf].
      intros x. rewrite file_chunk_files_deleted. split; [|by intros [? _]].
      intros ?. by split.
Qed.

Lemma query_length collection_uuid d :
  NoDup (e_id <$> langchain_pg_embedding d) →
  (length (documents.unique_file_chunks_query collection_uuid d)
   ≤ length (langchain_pg_embedding d))%nat.
Proof.
  intros Hkey. apply submseteq_length, NoDup_submseteq.
  - eapply strictly_ascending_NoDup. by apply query_strictly_sorted.
  - intros e He. by destruct (query_file_chunks d collection_uuid Hkey e He) as (f & ? & _).
Qed.

Lemma filter_listed collection_uuid file_ids (l : list embedding_row) :
  filter (λ doc, other_file file_ids (listed_file_id doc))
    (documents.listed collection_uuid <$> l)
  = documents.listed collection_uuid
      <$> filter (λ e, other_file file_ids (documents.file_id e)) l.
Proof.
  induction l as [|e l IH]; [done|]. csimpl.
  destruct (decide (other_file file_ids (documents.file_id e))) as [Hk|Hk].
  - rewrite !filter_cons_True; [by rewrite IH|done|by rewrite listed_file_id_listed].
  - rewrite !filter_cons_False; [done|done|by rewrite listed_file_id_listed].
Qed.

(** X16: with chunk ids unique and a limit that covers the table, the
    listing of a collection after chunks were deleted by file id is the
    listing before without the documents of the deleted files: the other
    documents keep their representative and their order. *)
Theorem listing_after_deleting_files
    (d : database) (r : collection_row) (collection_name : string)
    (file_ids : list string) (limit : Z) :
  NoDup (e_id <$> langchain_pg_embedding d) →
  documents.select_collection_by_name collection_name d = Ok (Some r) →
  file_ids ≠ [] →
  Z.of_nat (length (langchain_pg_embedding d)) ≤ limit < 2 ^ 63 →
  ∃ before d',
    documents.list_documents_in_vectorstore collection_name limit 0 (Up d)
    = (Ok before, Up d)
    ∧ documents.delete_documents_from_vectorstore collection_name file_ids (Up d)
      = (Ok true, Up d')
    ∧ documents.list_documents_in_vectorstore collection_name limit 0 (Up d')
      = (Ok (filter (λ doc, other_file file_ids (listed_file_id doc)) before), Up d').
Proof.
  intros Hkey [= Hr] Hne Hlimit.
  destruct file_ids as [|fid file_ids]; [done|].
  rewrite delete_documents_run, Hr.
  eexists _, _. split; [by rewrite list_documents_run, Hr|]. split; [done|].
  rewrite list_documents_run. cbn [files_deleted langchain_pg_collection]. rewrite Hr.
  rewrite !list_query_in_range by lia.
  change (Z.to_nat 0) with 0%nat. rewrite !drop_0.
  rewrite !take_ge.
  - by rewrite query_files_deleted, filter_listed.
  - pose proof (query_length (c_uuid r) d Hkey) as Hlen.
    destruct Hlimit as [Hlow _]. clear - Hlen Hlow. lia.
  - pose proof (query_length (c_uuid r) _
                  (files_deleted_keyed (c_uuid r) (fid :: file_ids) d Hkey)) as Hlen.
    etrans; [exact Hlen|]. unfold files_deleted. cbn [langchain_pg_embedding].
    etrans; [apply length_filter|].
    destruct Hlimit as [Hlow _]. clear - Hlow. lia.
Qed.

Lemma listing_after_deleting_files_witness :
  ∃ before d',
    documents.list_documents_in_vectorstore "docs" 10 0 (Up user2_only)
    = (Ok before, Up user2_only)
    ∧ documents.delete_documents_from_vectorstore "docs" ["f1"] (Up user2_only)
      = (Ok true, Up d')
    ∧ documents.list_documents_in_vectorstore "docs" 10 0 (Up d')
      = (Ok (filter (λ doc, other_file ["f1"] (listed_file_id doc)) before), Up d').
Proof.
  apply (listing_after_deleting_files user2_only user2_docs "docs" ["f1"] 10).
  - decided.
  - reflexivity.
  - discriminate.
  - vm_compute. split; [discriminate|reflexivity].
Defined.

(** After the chunks of [f1] are deleted, the listing holds the document
    of [f2] alone. *)
Example listing_without_f1 :
  documents.id <$>
    match (documents.list_documents_in_vectorstore "docs" 10 0
             (documents.delete_documents_from_vectorstore "docs" ["f1"]
                (Up user2_only)).2).1 with
    | Ok listing => listing
    | Raise _ => []
    end = ["e4"].
Proof. reflexivity. Qed.

(** * Further properties: keys, records, creation, hits *)

(** ** Keys are kept *)

Lemma deleted_keyed user_id collection_id d :
  keyed (Up d) → keyed (Up (deleted user_id collection_id d)).
Proof.
  intros [Hrows Hchunks]. unfold deleted, on_delete_cascade. split; simpl.
  - eapply sublist_NoDup; [exact Hrows|]. apply fmap_sublist, sublist_filter.
  - eapply sublist_NoDup; [exact Hchunks|]. apply fmap_sublist, sublist_filter.
Qed.

(** X17: the statements that write keep the keys of the tables: when no
    two collections share a [uuid] and no two chunks an [id], the same
    holds after [update], after [delete] and after deleting chunks by file
    id, whether the operation succeeds or fails. *)
Theorem writes_keep_keys
    (b : backend) (user_id collection_id collection_name : string)
    (new_name : option string) (metadata : option Metadata) (file_ids : list string) :
  keyed b →
  keyed (collections.update user_id collection_id new_name metadata b).2
  ∧ keyed (collections.delete user_id collection_id b).2
  ∧ keyed (documents.delete_documents_from_vectorstore collection_name file_ids b).2.
Proof.
  destruct b as [d|e].
  2:{ intros _. split; [exact I|]. split; [exact I|].
      destruct file_ids as [|fid file_ids]; [exact I|].
      by rewrite delete_documents_down. }
  intros Hkeyed. split; [|split].
  - rewrite update_run. case_decide; [done|].
    assert (keyed (Up (updated user_id collection_id new_name metadata d))) as Hupd.
    { destruct Hkeyed as [Hrows Hchunks]. split; [|done]. by rewrite updated_uuids. }
    by destruct (head _).
  - rewrite delete_run. case_decide; by apply deleted_keyed.
  - destruct file_ids as [|fid file_ids]; [done|].
    rewrite delete_documents_run. destruct (head _) as [r|]; [|done].
    destruct Hkeyed as [Hrows Hchunks]. split; [done|].
    by apply files_deleted_keyed.
Qed.

Lemma writes_keep_keys_witness :
  keyed (collections.update "user1" "c1" (Some "papers") None (Up two_owners)).2
  ∧ keyed (collections.delete "user1" "c1" (Up two_owners)).2
  ∧ keyed (documents.delete_documents_from_vectorstore "docs" ["f1"] (Up two_owners)).2.
Proof.
  apply (writes_keep_keys (Up two_owners) "user1" "c1" "docs" (Some "papers") None ["f1"]).
  split; decided.
Defined.

(** ** Records as dictionaries *)

Abbreviation record_step :=
  (λ (acc : Metadata) (item : string * documents.field),
     if decide (item.1 ≠ "embedding")
     then <[item.1 := documents.field_value item.2]> acc
     else acc).

Lemma record_fold_absent (items : list (string * documents.field)) (acc : Metadata) key :
  key ∉ items.*1 → foldl record_step acc items !! key = acc !! key.
Proof.
  revert acc. induction items as [|[k v] items IH]; intros acc Hkey; [done|].
  apply not_elem_of_cons in Hkey as [Hne Hkey]. simpl.
  rewrite IH by done. case_decide; [|done]. by rewrite lookup_insert_ne.
Qed.

Lemma record_fold_embedding (items : list (string * documents.field)) (acc : Metadata) :
  acc !! "embedding" = None → foldl record_step acc items !! "embedding" = None.
Proof.
  revert acc. induction items as [|[k v] items IH]; intros acc Hacc; [done|].
  simpl. apply IH. case_decide; [|done]. by rewrite lookup_insert_ne.
Qed.

Lemma record_fold_last (items : list (string * documents.field)) (acc : Metadata)
    before key val rest :
  items = (before ++ (key, val) :: rest)%list →
  key ∉ rest.*1 → key ≠ "embedding" →
  foldl record_step acc items !! key = Some (documents.field_value val).
Proof.
  intros -> Hrest Hkey. rewrite foldl_app. simpl.
  rewrite record_fold_absent by done.
  rewrite decide_True by done. apply lookup_insert_eq.
Qed.

(** X18: [record_to_dict] gives no dictionary for no record; for a record
    it gives a dictionary without the [embedding] column, in which every
    other column holds the value of its last item, a UUID as its text, and
    a name that is no column is no key. *)
Theorem record_to_dict_columns (items : list (string * documents.field)) :
  documents.record_to_dict None = None
  ∧ ∃ dict,
      documents.record_to_dict (Some items) = Some dict
      ∧ dict !! "embedding" = None
      ∧ (∀ key, key ∉ items.*1 → dict !! key = None)
      ∧ (∀ before key val rest,
           items = (before ++ (key, val) :: rest)%list →
           key ∉ rest.*1 → key ≠ "embedding" →
           dict !! key = Some (documents.field_value val)).
Proof.
  split; [done|]. eexists. split; [done|]. split; [|split].
  - by apply record_fold_embedding.
  - intros key Hkey. by rewrite record_fold_absent.
  - intros before key val rest. apply record_fold_last.
Qed.

(** A record of a chunk: the identifiers come out as text and the vector is
    left out. *)
Example record_of_a_chunk :
  documents.record_to_dict
    (Some [("uuid", documents.FUUID "e1");
           ("embedding", documents.FValue (VOther true "[0.1, 0.2]" "[0.1, 0.2]"));
           ("document", documents.FValue (VStr "text"));
           ("collection_id", documents.FUUID "c1")])
  = Some {["uuid" := VStr "e1"; "document" := VStr "text"; "collection_id" := VStr "c1"]}.
Proof. reflexivity. Qed.

(** ** What a creation returns *)

(** X19: when the caller owns no collection of the name, [create] returns
    the name with the metadata it was given under the caller's [owner_id]
    (for no metadata or empty metadata, the [owner_id] alone), the lookup
    by name finds what was returned, and the chunks are as before.  That
    the row is stored is [get_vectorstore], as modelled. *)
Theorem create_returns_what_is_stored
    (d : database) (user_id collection_name : string) (metadata : option Metadata) :
  (∀ r, r ∈ langchain_pg_collection d →
        ¬ collections.where_name_owner collection_name user_id r) →
  ∃ created d',
    collections.create user_id collection_name metadata (Up d) = (Ok created, Up d')
    ∧ collections.name created = collection_name
    ∧ collections.metadata created = <["owner_id" := VStr user_id]> (default ∅ metadata)
    ∧ collections._get_by_name user_id collection_name (Up d')
      = (Ok (Some created), Up d')
    ∧ langchain_pg_embedding d' = langchain_pg_embedding d.
Proof.
  intros Hfree. rewrite create_run. rewrite filter_none by done. simpl.
  eexists _, _. split; [done|]. split; [done|]. split; [done|]. split; [|done].
  rewrite get_by_name_run. simpl.
  rewrite filter_app, filter_none by done.
  by rewrite filter_cons_True by apply created_row_owned.
Qed.

Lemma create_returns_what_is_stored_witness :
  ∃ created d',
    collections.create "user1" "docs" None (Up user2_only) = (Ok created, Up d')
    ∧ collections.name created = "docs"
    ∧ collections.metadata created = <["owner_id" := VStr "user1"]> (default ∅ None)
    ∧ collections._get_by_name "user1" "docs" (Up d') = (Ok (Some created), Up d')
    ∧ langchain_pg_embedding d' = langchain_pg_embedding user2_only.
Proof.
  apply (create_returns_what_is_stored user2_only "user1" "docs" None).
  apply Forall_forall. decided.
Defined.

(** ** The precedence of the entries of a hit *)

Section precedence.

Variable score : Type.

(** X20: a hit whose [uuid] entry is a non-empty string has that string as
    its id, whatever its [id] entry; a hit with no [uuid] entry and a
    non-empty string as [id] entry has that one. *)
Theorem hit_id_prefers_uuid (doc : documents.Document) (sc : score) (s : string) :
  s ≠ "" →
  (documents.doc_metadata doc !! "uuid" = Some (VStr s) →
   documents.hit_id score (documents.formatted score (doc, sc)) = Some s)
  ∧ (documents.doc_metadata doc !! "uuid" = None →
     documents.doc_metadata doc !! "id" = Some (VStr s) →
     documents.hit_id score (documents.formatted score (doc, sc)) = Some s).
Proof.
  intros Hs. rewrite formatted_hit_id.
  unfold documents.truthy_hit_id, documents.truthy_entry.
  assert (py_bool (VStr s) = true) as Htrue.
  { simpl. by rewrite bool_decide_eq_false_2. }
  split.
  - intros ->. by rewrite Htrue.
  - intros -> ->. by rewrite Htrue.
Qed.

End precedence.

Lemma hit_id_prefers_uuid_witness :
  (documents.doc_metadata
     {| documents.page_content := "text";
        documents.doc_metadata := {["uuid" := VStr "e1"; "id" := VStr "other"]} |}
   !! "uuid" = Some (VStr "e1") →
   documents.hit_id Z
     (documents.formatted Z
        ({| documents.page_content := "text";
            documents.doc_metadata := {["uuid" := VStr "e1"; "id" := VStr "other"]} |},
         1)) = Some "e1")
  ∧ (documents.doc_metadata
       {| documents.page_content := "text";
          documents.doc_metadata := {["uuid" := VStr "e1"; "id" := VStr "other"]} |}
     !! "uuid" = None →
     documents.doc_metadata
       {| documents.page_content := "text";
          documents.doc_metadata := {["uuid" := VStr "e1"; "id" := VStr "other"]} |}
     !! "id" = Some (VStr "e1") →
     documents.hit_id Z
       (documents.formatted Z
          ({| documents.page_content := "text";
              documents.doc_metadata := {["uuid" := VStr "e1"; "id" := VStr "other"]} |},
           1)) = Some "e1").
Proof.
  apply (hit_id_prefers_uuid Z
           {| documents.page_content := "text";
              documents.doc_metadata := {["uuid" := VStr "e1"; "id" := VStr "other"]} |}
           1 "e1").
  discriminate.
Defined.

(** * Further properties: how the operations compose *)

(** ** Listing and getting *)

(** X21: with [uuid] a key, every collection that [list] returns is what
    [get] returns under its id. *)
Theorem listed_collections_are_got
    (d : database) (user_id : string) (c : collections.CollectionDetails)
    (listing : list collections.CollectionDetails) :
  NoDup (c_uuid <$> langchain_pg_collection d) →
  collections.list user_id (Up d) = (Ok listing, Up d) →
  c ∈ listing →
  collections.get user_id (collections.uuid c) (Up d) = (Ok (Some c), Up d).
Proof.
  intros Hkey. rewrite list_run. intros [= <-] (r & -> & Hr)%list_elem_of_fmap.
  rewrite merge_sort_Permutation in Hr.
  apply list_elem_of_filter in Hr as [Hown Hr].
  rewrite get_run. simpl.
  by rewrite (filter_key_unique c_uuid _ _ r); [|done|done|done|by intros x []].
Qed.

Lemma listed_collections_are_got_witness :
  collections.get "user1" (collections.uuid (collections.details user1_docs))
    (Up two_owners)
  = (Ok (Some (collections.details user1_docs)), Up two_owners).
Proof.
  apply (listed_collections_are_got two_owners "user1" (collections.details user1_docs)
           [collections.details user1_docs]).
  - decided.
  - reflexivity.
  - by apply list_elem_of_singleton.
Defined.

(** ** Deleting a collection and the listings of the others *)

Lemma omap_filter {A B} (f : A → option B) (P : A → Prop) `{∀ x, Decision (P x)}
    (l : list A) :
  (∀ x, x ∈ l → ¬ P x → f x = None) → omap f (filter P l) = omap f l.
Proof.
  induction l as [|x l IH]; intros Hl; [done|].
  assert (omap f (filter P l) = omap f l) as Htl.
  { apply IH. intros y Hy. apply Hl. by right. }
  destruct (decide (P x)) as [HP|HP].
  - rewrite filter_cons_True by done. csimpl. by rewrite Htl.
  - rewrite filter_cons_False by done. csimpl.
    rewrite (Hl x); [done|by left|done].
Qed.

Lemma bind_filter {A B} (g : A → list B) (P : A → Prop) `{∀ x, Decision (P x)}
    (l : list A) :
  (∀ x, x ∈ l → ¬ P x → g x = []) → filter P l ≫= g = l ≫= g.
Proof.
  induction l as [|x l IH]; intros Hl; [done|].
  assert (filter P l ≫= g = l ≫= g) as Htl.
  { apply IH. intros y Hy. apply Hl. by right. }
  destruct (decide (P x)) as [HP|HP].
  - rewrite filter_cons_True by done. csimpl. by rewrite Htl.
  - rewrite filter_cons_False by done. csimpl.
    rewrite (Hl x); [done|by left|done].
Qed.

Lemma join_no_match (e : embedding_row) (ufcs : list (string * string)) :
  (∀ u, u ∈ ufcs → e_id e ≠ u.1) →
  (ufcs ≫= λ ufc, if decide (e_id e = ufc.1) then [(e, ufc)] else []) = [].
Proof.
  induction ufcs as [|u ufcs IH]; intros Hno; [done|]. csimpl.
  rewrite decide_False by (apply Hno; left). simpl.
  apply IH. intros u' Hu'. apply Hno. by right.
Qed.

(** Chunks of another collection do not count in the query. *)
Lemma query_without_other_chunks (d : database) (rows : list collection_row)
    (collection_uuid other : string) :
  NoDup (e_id <$> langchain_pg_embedding d) →
  other ≠ collection_uuid →
  documents.unique_file_chunks_query collection_uuid
    {| langchain_pg_collection := rows;
       langchain_pg_embedding :=
         filter (λ e, e_collection_id e ≠ other) (langchain_pg_embedding d) |}
  = documents.unique_file_chunks_query collection_uuid d.
Proof.
  intros Hkey Hother.
  set (d' := {| langchain_pg_collection := _; langchain_pg_embedding := _ |}).
  assert (documents.file_chunks collection_uuid d'
          = documents.file_chunks collection_uuid d) as Hfc.
  { unfold documents.file_chunks, d'; simpl. apply omap_filter.
    intros e _ Hnot. rewrite decide_False; [done|].
    intros Hc. apply Hnot. congruence. }
  assert (documents.UniqueFileChunks collection_uuid d'
          = documents.UniqueFileChunks collection_uuid d) as Hufc.
  { unfold documents.UniqueFileChunks. by rewrite Hfc. }
  unfold documents.unique_file_chunks_query. rewrite Hufc. do 2 f_equal.
  unfold documents.join_on_id, d'; simpl. apply bind_filter.
  intros e He Hnot. apply join_no_match. intros u Hu Hid.
  apply UniqueFileChunks_elem, file_chunks_elem in Hu as (e0 & (He0 & Hc & _) & Hid0).
  assert (e = e0) as -> by (eapply (key_identifies_row e_id); [done..|congruence]).
  apply Hnot. congruence.
Qed.

Lemma head_filter_without {A} `{EqDecision A} (P : A → Prop) `{∀ x, Decision (P x)}
    (l : list A) (x y : A) :
  head (filter P l) = Some x → x ≠ y →
  head (filter P (filter (λ z, z ≠ y) l)) = Some x.
Proof.
  intros Hhead Hne. induction l as [|z l IH]; [done|].
  destruct (decide (P z)) as [HP|HP].
  - rewrite filter_cons_True in Hhead by done. injection Hhead as ->.
    rewrite (filter_cons_True (λ z, z ≠ y)) by done.
    by rewrite filter_cons_True by done.
  - rewrite filter_cons_False in Hhead by done.
    destruct (decide (z ≠ y)).
    + rewrite (filter_cons_True (λ z, z ≠ y)) by done.
      rewrite filter_cons_False by done. by apply IH.
    + rewrite (filter_cons_False (λ z, z ≠ y)) by done. by apply IH.
Qed.

Lemma delete_key_run (d : database) (r : collection_row) (user_id : string) :
  NoDup (c_uuid <$> langchain_pg_collection d) →
  r ∈ langchain_pg_collection d →
  owned_by user_id r →
  (collections.delete user_id (c_uuid r) (Up d)).2
  = Up {| langchain_pg_collection :=
            filter (λ x, x ≠ r) (langchain_pg_collection d);
          langchain_pg_embedding :=
            filter (λ e, e_collection_id e ≠ c_uuid r) (langchain_pg_embedding d) |}.
Proof.
  intros Hkey Hr Hown. rewrite delete_run. unfold deleted.
  rewrite (filter_key_unique c_uuid _ _ r); [|done|done|done|by intros x []].
  rewrite decide_False by done. simpl. do 2 f_equal.
  - apply filter_ext_elem. intros x Hx. split.
    + intros Hnot ->. by apply Hnot.
    + intros Hne [Hid _]. apply Hne. by eapply (key_identifies_row c_uuid).
  - unfold on_delete_cascade. apply list_filter_iff. intros e. simpl.
    by rewrite list_elem_of_singleton.
Qed.

(** X22: with [uuid] and chunk [id] keys, deleting a collection changes
    the listing of no other collection: under a name that resolves to
    another collection, every page is as before. *)
Theorem delete_keeps_other_listings
    (d : database) (r other : collection_row) (user_id collection_name : string)
    (limit offset : Z) :
  keyed (Up d) →
  r ∈ langchain_pg_collection d →
  owned_by user_id r →
  documents.select_collection_by_name collection_name d = Ok (Some other) →
  other ≠ r →
  (documents.list_documents_in_vectorstore collection_name limit offset
     (collections.delete user_id (c_uuid r) (Up d)).2).1
  = (documents.list_documents_in_vectorstore collection_name limit offset (Up d)).1.
Proof.
  intros [Hrows Hchunks] Hr Hown [= Hother] Hne.
  rewrite delete_key_run by done. rewrite !list_documents_run. simpl.
  rewrite (head_filter_without _ _ other r) by done. rewrite Hother.
  assert (c_uuid r ≠ c_uuid other) as Huuid.
  { intros Heq. apply Hne. apply head_filter_Some in Hother as [Ho _].
    by eapply (key_identifies_row c_uuid). }
  unfold documents.list_query.
  by rewrite (query_without_other_chunks d _ (c_uuid other) (c_uuid r)).
Qed.

Lemma delete_keeps_other_listings_witness :
  (documents.list_documents_in_vectorstore "docs" 10 0
     (collections.delete "user2" (c_uuid user2_docs) (Up two_owners)).2).1
  = (documents.list_documents_in_vectorstore "docs" 10 0 (Up two_owners)).1.
Proof.
  apply (delete_keeps_other_listings two_owners user2_docs user1_docs "user2" "docs" 10 0).
  - split; decided.
  - decided.
  - reflexivity.
  - reflexivity.
  - discriminate.
Defined.
